(** * pdf-converter-server: admission control and heavy-job lifecycle

    A shallow embedding of [server.js] (the throttled revision: fixed-window
    per-IP rate limiters, the concurrency gate, the cleanup helpers and the
    [exec] callbacks of the four heavy routes), followed by the properties
    of the specification that are checked against it.

    Conventions of the embedding.
    - JavaScript numbers that hold integers (timestamps of [Date.now()],
      counters, the values [parseInt] returns for the configuration) are [Z];
      a configuration variable that does not parse ([NaN]) is outside the
      model.  Numbers that are genuinely fractional (file sizes in MB, the
      value [parseFloat] returns) are binary64 floats, [spec_float] with
      [prec = 53] and [emax = 1024].
    - JavaScript strings are [string]; [null]/[undefined] is [None].
    - A [Map] is a [gmap]; the module-level [let]/[const] bindings are the
      fields of a record that is threaded through every call.
    - The response object is a record patterned after the mock the test
      suite uses ([statusCode], [body], [headers], handlers per event). *)

From stdpp Require Import gmap strings list pretty.
From Stdlib Require Import ZArith SpecFloat.

#[local] Open Scope Z_scope.

(** ** JavaScript odds and ends *)

Module Js.

(** Truthiness of a possibly missing string: [undefined], [null] and the
    empty string are falsy. *)
Definition truthy (v : option string) : bool :=
  match v with
  | Some s => negb (String.eqb s "")
  | None => false
  end.

(** [a || b] on possibly missing strings. *)
Definition or_else (a b : option string) : option string :=
  if truthy a then a else b.

(** [Math.ceil (a / b)] for integers [a] and [b > 0]. *)
Definition ceil_div (a b : Z) : Z := - ((- a) / b).

(** [String (n)] for an integer [n]. *)
Definition String_ (n : Z) : string := pretty n.

Definition lower (c : Ascii.ascii) : Ascii.ascii :=
  let n := Ascii.N_of_ascii c in
  if ((65 <=? n) && (n <=? 90))%N then Ascii.ascii_of_N (n + 32) else c.

(** [s.toLowerCase ()], on the code units [A]..[Z].  No code unit outside
    ASCII lower-cases to a letter that occurs in the markers the server
    searches for, so the searches below see what the engine sees. *)
Fixpoint toLowerCase (s : string) : string :=
  match s with
  | EmptyString => EmptyString
  | String c s => String (lower c) (toLowerCase s)
  end.

(** [s.includes (pat)] *)
Fixpoint includes (s pat : string) : bool :=
  String.prefix pat s ||
  match s with
  | EmptyString => false
  | String _ s => includes s pat
  end.

End Js.

(** ** The framework boundary: requests and responses *)

Module Express.

(** [req.file] as multer fills it in. *)
Record upload := Upload { path : string; filename : string }.

Record request := Request {
  ip : option string;             (* req.ip *)
  remoteAddress : option string;  (* req.socket?.remoteAddress *)
  file : option upload;           (* req.file *)
  fields : gmap string string     (* req.body *)
}.

(** The response object.  [handlers] holds the callbacks registered with
    [res.on (event, cb)]; a callback is named by the index of its closure
    in the server's closure heap. *)
Record res := Res {
  statusCode : Z;
  body : string;
  headers : list (string * string);
  sent : bool;
  download : option (string * string);
  handlers : list (string * nat)
}.

Definition createRes : res :=
  {| statusCode := 200; body := ""; headers := []; sent := false;
     download := None; handlers := [] |}.

Definition set (name value : string) (r : res) : res :=
  {| statusCode := statusCode r; body := body r;
     headers := (name, value) :: headers r; sent := sent r;
     download := download r; handlers := handlers r |}.

Definition status (code : Z) (r : res) : res :=
  {| statusCode := code; body := body r; headers := headers r;
     sent := sent r; download := download r; handlers := handlers r |}.

Definition send (payload : string) (r : res) : res :=
  {| statusCode := statusCode r; body := payload; headers := headers r;
     sent := true; download := download r; handlers := handlers r |}.

Definition on (event : string) (cb : nat) (r : res) : res :=
  {| statusCode := statusCode r; body := body r; headers := headers r;
     sent := sent r; download := download r;
     handlers := handlers r ++ [(event, cb)] |}.

(** [res.download (filePath, fileName, cb)]: the transfer is the
    framework's; [cb] runs when it is over (see the [*_downloaded]
    continuations of the routes). *)
Definition download_ (filePath fileName : string) (r : res) : res :=
  {| statusCode := statusCode r; body := body r; headers := headers r;
     sent := true; download := Some (filePath, fileName);
     handlers := handlers r |}.

Definition header (name : string) (r : res) : option string :=
  snd <$> List.find (λ h, String.eqb (fst h) name) (headers r).

End Express.

(** ** Throttling *)

Module Throttle.
Import Express.

(** *** Configuration ([process.env], after [parseInt]) *)

Record config := Config {
  WINDOW_MS : Z;
  MAX_REQUESTS_PER_WINDOW : Z;
  HEAVY_MAX_REQUESTS_PER_WINDOW : Z;
  MAX_CONCURRENT_JOBS : Z
}.

(** The values used when the environment sets none. *)
Definition defaults : config :=
  {| WINDOW_MS := 15 * 60 * 1000;
     MAX_REQUESTS_PER_WINDOW := 60;
     HEAVY_MAX_REQUESTS_PER_WINDOW := 10;
     MAX_CONCURRENT_JOBS := 2 |}.

(** *** Rate-limit store *)

Record bucket := Bucket { count : Z; windowStart : Z }.

#[global] Instance bucket_eq_dec : EqDecision bucket.
Proof. solve_decision. Defined.

Definition getIp (req : request) : string :=
  default "unknown" (Js.or_else (ip req) (Js.or_else (remoteAddress req) (Some "unknown"))).

(** [now - bucket.windowStart >= windowMs] *)
Definition expired (now windowMs : Z) (b : bucket) : bool :=
  bool_decide (windowMs ≤ now - windowStart b).

Definition clearExpired (store : gmap string bucket) (now windowMs : Z)
  : gmap string bucket :=
  filter (λ kb, expired now windowMs kb.2 = false) store.

(** *** Limiter factory

    The closure [createIpRateLimiter] returns, applied to a request at
    time [now = Date.now ()].  The first component of the result is
    whether it called [next ()]; the store is passed in and returned: it
    is the [Map] the limiter was built with, and the buckets in it are
    updated in place. *)

Record limiter := Limiter {
  maxRequests : Z;
  windowMs : Z;
  message : string
}.

Definition createIpRateLimiter (lim : limiter)
    (req : request) (now : Z) (r : res) (store : gmap string bucket)
  : bool * res * gmap string bucket :=
  let ip := getIp req in
  let store := clearExpired store now (windowMs lim) in
  match store !! ip with
  | Some existing =>
      if expired now (windowMs lim) existing then
        (true, r, <[ip := Bucket 1 now]> store)
      else
        let existing := Bucket (count existing + 1) (windowStart existing) in
        let store := <[ip := existing]> store in
        if bool_decide (maxRequests lim < count existing) then
          let retryAfterSeconds :=
            Js.ceil_div (windowMs lim - (now - windowStart existing)) 1000 in
          let r := set "Retry-After" (Js.String_ (Z.max retryAfterSeconds 1)) r in
          (false, send (message lim) (status 429 r), store)
        else (true, r, store)
  | None => (true, r, <[ip := Bucket 1 now]> store)
  end.

(** *** Module state: the two stores, the gate counter, and the
    [released] flag of every [release] closure created so far. *)

Record server := Server {
  globalIpHits : gmap string bucket;
  heavyIpHits : gmap string bucket;
  activeHeavyJobs : Z;
  released : list bool
}.

Definition boot : server :=
  {| globalIpHits := ∅; heavyIpHits := ∅; activeHeavyJobs := 0; released := [] |}.

Definition middleware := request → Z → res → server → bool * res * server.

Definition globalLimiter (cfg : config) : limiter :=
  {| maxRequests := MAX_REQUESTS_PER_WINDOW cfg;
     windowMs := WINDOW_MS cfg;
     message := "Too many requests. Please try again later." |}.

Definition heavyLimiter (cfg : config) : limiter :=
  {| maxRequests := HEAVY_MAX_REQUESTS_PER_WINDOW cfg;
     windowMs := WINDOW_MS cfg;
     message := "Too many conversion requests. Please wait and retry." |}.

Definition globalRateLimit (cfg : config) : middleware := λ req now r srv,
  let '(nxt, r, store) :=
    createIpRateLimiter (globalLimiter cfg) req now r (globalIpHits srv) in
  (nxt, r, {| globalIpHits := store; heavyIpHits := heavyIpHits srv;
              activeHeavyJobs := activeHeavyJobs srv; released := released srv |}).

Definition heavyRouteRateLimit (cfg : config) : middleware := λ req now r srv,
  let '(nxt, r, store) :=
    createIpRateLimiter (heavyLimiter cfg) req now r (heavyIpHits srv) in
  (nxt, r, {| globalIpHits := globalIpHits srv; heavyIpHits := store;
              activeHeavyJobs := activeHeavyJobs srv; released := released srv |}).

(** *** Concurrency gate *)

(** The closure [release] whose [released] variable is cell [j]. *)
Definition release (j : nat) (srv : server) : server :=
  match released srv !! j with
  | Some false =>
      {| globalIpHits := globalIpHits srv; heavyIpHits := heavyIpHits srv;
         activeHeavyJobs := Z.max (activeHeavyJobs srv - 1) 0;
         released := <[j := true]> (released srv) |}
  | _ => srv
  end.

Definition limitConcurrentHeavyJobs (cfg : config) : middleware := λ req now r srv,
  if bool_decide (MAX_CONCURRENT_JOBS cfg ≤ activeHeavyJobs srv) then
    (false, send "Server is busy. Please retry shortly."
              (status 429 (set "Retry-After" "10" r)), srv)
  else
    let j := length (released srv) in
    let srv := {| globalIpHits := globalIpHits srv; heavyIpHits := heavyIpHits srv;
                  activeHeavyJobs := activeHeavyJobs srv + 1;
                  released := released srv ++ [false] |} in
    (true, on "close" j (on "finish" j r), srv).

(** [res] emits [event]: every callback registered for it runs, in
    registration order. *)
Definition emit (event : string) (r : res) (srv : server) : server :=
  foldl (λ srv h, if String.eqb (fst h) event then release (snd h) srv else srv)
        srv (handlers r).

(** [app.post (path, m1, ..., mk, handler)]: each middleware runs only if
    the previous one called [next ()]. *)
Fixpoint chain (ms : list middleware) : middleware := λ req now r srv,
  match ms with
  | [] => (true, r, srv)
  | m :: ms =>
      let '(nxt, r, srv) := m req now r srv in
      if nxt then chain ms req now r srv else (false, r, srv)
  end.

End Throttle.

(** ** Numbers that are not integers: binary64 *)

Module Number.

Definition number := spec_float.
Definition prec : Z := 53.
Definition emax : Z := 1024.

Definition of_Z (n : Z) : number := binary_normalize prec emax n 0 false.
Definition div (x y : number) : number := SFdiv prec emax x y.
Definition ltb (x y : number) : bool := SFltb x y.
Definition leb (x y : number) : bool := SFleb x y.
Definition isNaN (x : number) : bool :=
  match x with S754_nan => true | _ => false end.

(** The literals of the compression strategy.  A decimal literal denotes
    the double nearest to it, which is what the correctly rounded
    quotient of two exactly representable integers gives. *)
Definition lit_0_2 : number := div (of_Z 2) (of_Z 10).
Definition lit_0_6 : number := div (of_Z 6) (of_Z 10).

End Number.

(** ** The file system and exceptions *)

Module Fs.

(** What [fs.statSync] reports about a path. *)
Record stats := Stats { isDirectory : bool; size : Z }.

(** The part of the outside world the helpers touch: the directory tree,
    keyed by path as the code spells it (no normalisation), and what was
    written to the console. *)
Record world := World { files : gmap string stats; console : list string }.

Definition with_files (f : gmap string stats → gmap string stats) (w : world) : world :=
  {| files := f (files w); console := console w |}.

(** A JavaScript computation either completes normally or throws. *)
Inductive completion (A : Type) : Type :=
| Normal (a : A)
| Throw (e : string).
Arguments Normal {A} a.
Arguments Throw {A} e.

Definition js (A : Type) : Type := world → completion A * world.

Definition ret {A} (a : A) : js A := λ w, (Normal a, w).
Definition throw {A} (e : string) : js A := λ w, (Throw e, w).
Definition bind {A B} (c : js A) (k : A → js B) : js B := λ w,
  match c w with
  | (Normal a, w) => k a w
  | (Throw e, w) => (Throw e, w)
  end.
(** [try { c } catch (e) { h e }] *)
Definition try_catch {A} (c : js A) (h : string → js A) : js A := λ w,
  match c w with
  | (Normal a, w) => (Normal a, w)
  | (Throw e, w) => h e w
  end.

Notation "'let*' x ':=' c 'in' k" := (bind c (λ x, k))
  (at level 10, x name, c at level 100, k at level 200, only parsing).
Notation "'run' c 'in' k" := (bind c (λ _, k))
  (at level 10, c at level 100, k at level 200, only parsing).

(** [q] is [dir] itself or lies below it. *)
Definition under (dir q : string) : bool :=
  String.eqb q dir || String.prefix (dir +:+ "/") q.

(** The name of [q] inside [dir], when [q] is a direct entry of [dir]. *)
Definition entry_name (dir q : string) : option string :=
  let d := dir +:+ "/" in
  if String.prefix d q then
    let name := String.substring (String.length d) (String.length q - String.length d) q in
    if String.eqb name "" || Js.includes name "/" then None else Some name
  else None.

Definition existsSync (p : string) : js bool := λ w,
  (Normal (bool_decide (is_Some (files w !! p))), w).

Definition statSync (p : string) : js stats := λ w,
  match files w !! p with
  | Some st => (Normal st, w)
  | None => (Throw "ENOENT", w)
  end.

Definition unlinkSync (p : string) : js unit := λ w,
  match files w !! p with
  | Some st =>
      if isDirectory st then (Throw "EISDIR", w)
      else (Normal tt, with_files (delete p) w)
  | None => (Throw "ENOENT", w)
  end.

(** [fs.rmSync (p, { recursive: true, force: true })] *)
Definition rmSync_rf (p : string) : js unit := λ w,
  (Normal tt, with_files (filter (λ kv, under p kv.1 = false)) w).

Definition mkdirSync (p : string) : js unit := λ w,
  match files w !! p with
  | Some _ => (Throw "EEXIST", w)
  | None => (Normal tt, with_files (insert p (Stats true 0)) w)
  end.

Definition readdirSync (p : string) : js (list string) := λ w,
  match files w !! p with
  | Some st =>
      if isDirectory st then
        (Normal (omap (λ kv, entry_name p kv.1) (map_to_list (files w))), w)
      else (Throw "ENOTDIR", w)
  | None => (Throw "ENOENT", w)
  end.

Definition console_error (msg : string) : js unit := λ w,
  (Normal tt, {| files := files w; console := console w ++ [msg] |}).

(** [if (p && fs.existsSync (p)) act (p)] *)
Definition if_present (p : option string) (act : string → js unit) : js unit :=
  match p with
  | Some s =>
      if Js.truthy p then
        let* present := existsSync s in
        if present then act s else ret tt
      else ret tt
  | None => ret tt
  end.

(** Nothing is left at [p] for [if_present] to act on. *)
Definition gone (p : option string) (w : world) : Prop :=
  match p with
  | Some s => Js.truthy p = false ∨ files w !! s = None
  | None => True
  end.

Definition cleanup (input output extraDir : option string) : js unit :=
  try_catch
    (run if_present input unlinkSync in
     run if_present output unlinkSync in
     if_present extraDir rmSync_rf)
    (λ e, console_error ("Cleanup warning: " +:+ e)).

Definition getFileSizeMB (path : string) : js Number.number :=
  try_catch
    (let* st := statSync path in
     ret (Number.div (Number.of_Z (size st)) (Number.of_Z (1024 * 1024))))
    (λ e, ret (Number.of_Z 0)).

End Fs.

(** ** Outcome classification *)

Module Classifier.

Import Js.

(** Check if the error was caused by a missing/wrong password. *)
Definition checkPasswordError (stderr stdout : string) : bool :=
  let output := toLowerCase (stderr +:+ stdout) in
  includes output "password" || includes output "encrypted"
  || includes output "this file requires a password".

End Classifier.

(** ** The heavy routes *)

Module Routes.
Import Express Throttle Fs Classifier.

(** What [exec] hands to its callback.  The command line itself is a
    string built from the paths below and goes to an external tool; the
    tool is represented by the result it reports. *)
Record execResult := ExecResult {
  error : option string;
  stdout : string;
  stderr : string
}.

Inductive route := Convert | Compress | Extract | Unlock.

(** Per-job values a handler computes before it calls [exec]. *)
Record job := Job {
  inputPath : string;
  outputPath : string;       (* convert, compress, unlock *)
  outputDir : string;        (* extract *)
  mode : option string;      (* compress: req.body.mode; extract: with its default *)
  format : string;           (* extract *)
  originalSize : Number.number;  (* compress *)
  gsSettings : string        (* compress *)
}.

(** [upload.single ('pdfFile')]: multer stages the payload and sets
    [req.file]; the request of the model carries [file] from the start. *)
Definition upload_single : middleware := λ req now r srv, (true, r, srv).

(** [app.use (globalRateLimit)] followed by the middleware every heavy
    route lists before its handler. *)
Definition stack (cfg : config) : list middleware :=
  [globalRateLimit cfg; heavyRouteRateLimit cfg; limitConcurrentHeavyJobs cfg;
   upload_single].

Definition quote : string := String (Ascii.ascii_of_nat 34) EmptyString.

Definition no_file (r : res) : res := send "No file uploaded." (status 400 r).

Section Builtins.
(** [parseFloat] and [Number.prototype.toFixed (2)] belong to the
    engine. *)
Variable parseFloat : option string → Number.number.
Variable toFixed2 : Number.number → string.

(** The "Strategy Logic" block of [/compress]. *)
Definition strategy (mode : option string) (value originalSize : Number.number)
  : string :=
  if bool_decide (mode = Some "target") then
    let requiredRatio := Number.div value originalSize in
    if Number.leb (Number.of_Z 1) requiredRatio then "/printer"
    else if Number.ltb requiredRatio Number.lit_0_2 then "/screen"
    else if Number.ltb requiredRatio Number.lit_0_6 then "/ebook"
    else "/printer"
  else if bool_decide (mode = Some "percentage") then
    if Number.ltb (Number.of_Z 75) value then "/prepress"
    else if Number.ltb (Number.of_Z 50) value then "/printer"
    else if Number.ltb (Number.of_Z 25) value then "/ebook"
    else "/screen"
  else "/ebook".

(** The handlers up to their call of [exec]: [None] when the request
    was answered at once, [Some j] when a subprocess was started. *)
Definition handler (rt : route) (req : request) (now : Z) (r : res)
  : js (res * option job) :=
  match file req with
  | None => ret (no_file r, None)
  | Some f =>
      match rt with
      | Convert =>
          ret (r, Some {| inputPath := path f;
                          outputPath := "uploads/output_" +:+ filename f +:+ ".pdf";
                          outputDir := ""; mode := None; format := "";
                          originalSize := Number.of_Z 0; gsSettings := "" |})
      | Compress =>
          let* originalSize := getFileSizeMB (path f) in
          let mode := fields req !! "mode" in
          let value := parseFloat (fields req !! "value") in
          ret (r, Some {| inputPath := path f;
                          outputPath := "uploads/compressed_" +:+ filename f +:+ ".pdf";
                          outputDir := ""; mode := mode; format := "";
                          originalSize := originalSize;
                          gsSettings := strategy mode value originalSize |})
      | Extract =>
          let outputDir := "uploads/extract_" +:+ Js.String_ now in
          let* present := existsSync outputDir in
          run (if present then ret tt else mkdirSync outputDir) in
          let mode := Js.or_else (fields req !! "mode") (Some "images") in
          let format := default "png" (Js.or_else (fields req !! "format") (Some "png")) in
          ret (r, Some {| inputPath := path f; outputPath := "";
                          outputDir := outputDir; mode := mode; format := format;
                          originalSize := Number.of_Z 0; gsSettings := "" |})
      | Unlock =>
          if Js.truthy (fields req !! "password") then
            ret (r, Some {| inputPath := path f;
                            outputPath := "uploads/unlocked_" +:+ filename f +:+ ".pdf";
                            outputDir := ""; mode := None; format := "";
                            originalSize := Number.of_Z 0; gsSettings := "" |})
          else
            run cleanup (Some (path f)) None None in
            ret (send "Password is required." (status 400 r), None)
      end
  end.

(** [app.post (path, ...stack, handler)] *)
Definition post (cfg : config) (rt : route) (req : request) (now : Z) (r : res)
    (srv : server) : js (res * option job * server) :=
  let '(nxt, r, srv) := chain (stack cfg) req now r srv in
  if nxt then
    let* rj := handler rt req now r in ret (rj.1, rj.2, srv)
  else ret (r, None, srv).

(** What a callback of [exec] leaves behind: the response, and whether
    an archive is still being written ([/extract], step 4). *)
Definition empty_message (j : job) : string :=
  if bool_decide (mode j = Some "images")
  then "No embedded images found. Try " +:+ quote +:+ "Extract Pages" +:+ quote
       +:+ " instead."
  else "Could not render pages.".

Definition callback (rt : route) (j : job) (x : execResult) (r : res)
  : js (res * option string) :=
  match rt with
  | Convert =>
      if checkPasswordError (stderr x) (stdout x) then
        run cleanup (Some (inputPath j)) (Some (outputPath j)) None in
        ret (send "PASSWORD_REQUIRED" (status 401 r), None)
      else if bool_decide (is_Some (error x)) then
        run cleanup (Some (inputPath j)) (Some (outputPath j)) None in
        ret (send "Error converting file." (status 500 r), None)
      else ret (download_ (outputPath j) "converted-cmyk.pdf" r, None)
  | Compress =>
      if checkPasswordError (stderr x) (stdout x) then
        run cleanup (Some (inputPath j)) (Some (outputPath j)) None in
        ret (send "PASSWORD_REQUIRED" (status 401 r), None)
      else if bool_decide (is_Some (error x)) then
        run cleanup (Some (inputPath j)) (Some (outputPath j)) None in
        ret (send "Compression failed." (status 500 r), None)
      else
        let* newSize := getFileSizeMB (outputPath j) in
        let r := set "X-Original-Size" (toFixed2 (originalSize j)) r in
        let r := set "X-New-Size" (toFixed2 newSize) r in
        ret (download_ (outputPath j) "compressed.pdf" r, None)
  | Extract =>
      if checkPasswordError (stderr x) (stdout x) then
        run cleanup (Some (inputPath j)) None (Some (outputDir j)) in
        ret (send "PASSWORD_REQUIRED" (status 401 r), None)
      else if bool_decide (is_Some (error x)) then
        run cleanup (Some (inputPath j)) None (Some (outputDir j)) in
        ret (send "Processing failed." (status 500 r), None)
      else
        let* extractedFiles := readdirSync (outputDir j) in
        if bool_decide (length extractedFiles = 0%nat) then
          run cleanup (Some (inputPath j)) None (Some (outputDir j)) in
          ret (send (empty_message j) (status 422 r), None)
        else ret (r, Some (outputDir j +:+ ".zip"))
  | Unlock =>
      if bool_decide (is_Some (error x))
         || Js.includes (Js.toLowerCase (stderr x)) "password" then
        run cleanup (Some (inputPath j)) (Some (outputPath j)) None in
        ret (send "Incorrect Password or File Error" (status 401 r), None)
      else ret (download_ (outputPath j) "unlocked.pdf" r, None)
  end.

(** [/extract], step 4: the archive stream closed, or the archiver
    reported an error. *)
Definition archive_closed (j : job) (zipPath : string) (r : res) : res :=
  let filename :=
    if bool_decide (mode j = Some "pages")
    then "pages_" +:+ format j +:+ ".zip"
    else "images_" +:+ format j +:+ ".zip" in
  download_ zipPath filename r.

Definition archive_error (j : job) (zipPath : string) (r : res) : js res :=
  run cleanup (Some (inputPath j)) (Some zipPath) (Some (outputDir j)) in
  ret (send "Zip creation failed." (status 500 r)).

(** The callback of [res.download]. *)
Definition downloaded (rt : route) (j : job) (zipPath : string) : js unit :=
  match rt with
  | Extract => cleanup (Some (inputPath j)) (Some zipPath) (Some (outputDir j))
  | _ => cleanup (Some (inputPath j)) (Some (outputPath j)) None
  end.

End Builtins.

(** The status and body of the response a handler or callback has sent, if
    it sent one. *)
Definition answer {A} (c : completion (res * A) * world) : option (Z * string) :=
  match c.1 with
  | Normal (r, _) => if sent r then Some (statusCode r, body r) else None
  | Throw _ => None
  end.

(** The markers [checkPasswordError] looks for. *)
Definition markers : list string :=
  ["password"; "encrypted"; "this file requires a password"].

(** [text] contains [marker] up to the case of its letters. *)
Definition contains_ci (text marker : string) : Prop :=
  ∃ a m b, text = a +:+ m +:+ b ∧ Js.toLowerCase m = marker.

End Routes.

(** ** Runs of the server *)

Module Runs.
Import Express Throttle.

(** The decisions ([next ()] called or not) a limiter takes on a sequence
    of requests, each arriving at its own time with a fresh response. *)
Fixpoint serve (lim : limiter) (reqs : list (request * Z))
    (store : gmap string bucket) : list bool :=
  match reqs with
  | [] => []
  | (req, now) :: reqs =>
      let '(nxt, _, store) := createIpRateLimiter lim req now createRes store in
      nxt :: serve lim reqs store
  end.

(** The store a limiter is left with after a sequence of requests. *)
Definition served (lim : limiter) (reqs : list (request * Z))
    (store : gmap string bucket) : gmap string bucket :=
  foldl (λ store rq, (createIpRateLimiter lim rq.1 rq.2 createRes store).2) store reqs.

(** How many of [reqs] come from client [ip]. *)
Definition hits (ip : string) (reqs : list (request * Z)) : nat :=
  length (filter (λ rq, getIp rq.1 = ip) reqs).

(** What can happen to the module state: a request reaches one of the
    three middleware, or a response that went through the gate emits
    [finish] or [close], which runs the [release] closure [j] registered
    on it. *)
Inductive event :=
| Global (req : request) (now : Z)
| Heavy (req : request) (now : Z)
| Gate (req : request) (now : Z)
| Finish (j : nat)
| Close (j : nat).

Definition step (cfg : config) (srv : server) (e : event) : server :=
  match e with
  | Global req now => (globalRateLimit cfg req now createRes srv).2
  | Heavy req now => (heavyRouteRateLimit cfg req now createRes srv).2
  | Gate req now => (limitConcurrentHeavyJobs cfg req now createRes srv).2
  | Finish j | Close j => release j srv
  end.

Definition steps (cfg : config) (es : list event) (srv : server) : server :=
  foldl (step cfg) srv es.

Definition reachable (cfg : config) (srv : server) : Prop :=
  ∃ es, srv = steps cfg es boot.

(** Which store an event can write. *)
Definition on_global (e : event) : bool :=
  match e with Global _ _ => true | _ => false end.

Definition on_heavy (e : event) : bool :=
  match e with Heavy _ _ => true | _ => false end.

(** Jobs that hold a slot: admitted and not yet released. *)
Definition live (srv : server) : nat :=
  length (filter (λ b : bool, b = false) (released srv)).

(** A store in which the client of [req] has no open window at [now]. *)
Definition opens (lim : limiter) (req : request) (now : Z)
    (store : gmap string bucket) : Prop :=
  store !! getIp req = None ∨
  ∃ b, store !! getIp req = Some b ∧ windowMs lim ≤ now - windowStart b.

(** What every run keeps true of the counter. *)
Definition accounted (cfg : config) (srv : server) : Prop :=
  activeHeavyJobs srv = Z.of_nat (live srv)
  ∧ activeHeavyJobs srv ≤ Z.max (MAX_CONCURRENT_JOBS cfg) 0.

End Runs.

(** ** Counting what a limiter lets through *)

Module Tally.
Import Express Throttle.

(** How many of the requests [reqs], decided as [ds], came from client
    [ip] and were passed on to [next ()]. *)
Definition let_through (ip : string) (reqs : list (request * Z)) (ds : list bool) : nat :=
  length (filter (λ p : (request * Z) * bool, getIp p.1.1 = ip ∧ p.2 = true)
                 (zip reqs ds)).

End Tally.

(** ** What runs after a callback *)

Module Lifecycle.
Import Express Fs Routes.


(** How the archive of [/extract] ends: the archiver reports an error, or
    the output stream closes and the archive is sent, after which the
    callback of [res.download] runs. *)
Definition archive_done (failed : bool) (j : job) (zipPath : string) (r : res) : js res :=
  if failed then archive_error j zipPath r
  else run downloaded Extract j zipPath in ret (archive_closed j zipPath r).

(** The directory tree after [if (p && fs.existsSync (p)) fs.unlinkSync (p)]
    went through, and after the same with [fs.rmSync]. *)
Definition unlinked (p : option string) (m : gmap string stats) : gmap string stats :=
  match p with
  | Some s => if Js.truthy p then delete s m else m
  | None => m
  end.

Definition swept (p : option string) (m : gmap string stats) : gmap string stats :=
  match p with
  | Some s =>
      if Js.truthy p && bool_decide (is_Some (m !! s))
      then filter (λ kv, under s kv.1 = false) m
      else m
  | None => m
  end.

End Lifecycle.

(** ** The command lines of [/extract] *)

Module Commands.
Import Express Routes.

(** [req.body.password || ''] *)
Definition password_of (req : request) : string :=
  default "" (Js.or_else (fields req !! "password") (Some "")).

(** [-sDEVICE] for page rendering and the format flag of [pdfimages]. *)
Definition device (format : string) : string :=
  let device := "png16m" in
  let device := if String.eqb format "jpg" then "jpeg" else device in
  let device := if String.eqb format "tiff" then "tiff24nc" else device in
  device.

Definition formatFlag (format : string) : string :=
  let formatFlag := "-png" in
  let formatFlag := if String.eqb format "jpg" then "-j" else formatFlag in
  let formatFlag := if String.eqb format "tiff" then "-tiff" else formatFlag in
  formatFlag.

(** The command [/extract] hands to [exec] for the job [j] of request
    [req]. *)
Definition extract_command (req : request) (j : job) : string :=
  let password := password_of req in
  let outputPrefix := outputDir j +:+ "/output" in
  if bool_decide (mode j = Some "pages") then
    let outputFile := outputPrefix +:+ "-%03d." +:+ format j in
    let passFlag :=
      if Js.truthy (Some password)
      then "-sPDFPassword=" +:+ quote +:+ password +:+ quote else "" in
    "gs -dSAFER -dBATCH -dNOPAUSE -sDEVICE=" +:+ device (format j) +:+ " " +:+ passFlag
    +:+ " -r150 -sOutputFile=" +:+ quote +:+ outputFile +:+ quote +:+ " "
    +:+ quote +:+ inputPath j +:+ quote
  else
    let passFlag :=
      if Js.truthy (Some password)
      then "-upw " +:+ quote +:+ password +:+ quote else "" in
    "pdfimages " +:+ formatFlag (format j) +:+ " " +:+ passFlag +:+ " "
    +:+ quote +:+ inputPath j +:+ quote +:+ " " +:+ quote +:+ outputPrefix +:+ quote.

End Commands.

(** ** The merge route of the unthrottled revision *)

Module Merge.
Import Express Fs.

(** [paths.forEach (f)] *)
Fixpoint forEach (paths : list string) (f : string → js unit) : js unit :=
  match paths with
  | [] => ret tt
  | p :: paths => run f p in forEach paths f
  end.

(** The handler of [/merge] up to its call of [exec]: [req.files] is what
    [upload.array] staged. *)
Definition handler (files : option (list upload)) (now : Z) (r : res)
  : res * option (list string * string) :=
  match files with
  | Some fs =>
      if bool_decide (length fs < 2)%nat
      then (send "Please upload at least 2 PDF files." (status 400 r), None)
      else (r, Some (path <$> fs, "uploads/merged_" +:+ Js.String_ now +:+ ".pdf"))
  | None => (send "Please upload at least 2 PDF files." (status 400 r), None)
  end.

(** The callback of [exec]; it deletes nothing. *)
Definition callback (outputPath : string) (error : option string) (r : res) : res :=
  if bool_decide (is_Some error) then send "Merge failed." (status 500 r)
  else download_ outputPath "merged-document.pdf" r.

(** The callback of [res.download]: the output is unlinked without a
    check, the inputs after one. *)
Definition downloaded (outputPath : string) (inputPaths : list string) : js unit :=
  run unlinkSync outputPath in
  forEach inputPaths (λ p,
    let* present := existsSync p in
    if present then unlinkSync p else ret tt).

End Merge.

(** * Properties *)

(** ** The fixed-window limiter *)

Module LimiterFacts.
Import Express Throttle Runs.

Lemma ceil_div_spec (a c : Z) :
  Js.ceil_div a 1000 = c ↔ 1000 * (c - 1) < a ≤ 1000 * c.
Proof.
  unfold Js.ceil_div. split.
  - intros <-. pose proof (Z.div_mod (- a) 1000 ltac:(lia)).
    pose proof (Z.mod_pos_bound (- a) 1000 ltac:(lia)). lia.
  - intros [Hlo Hhi]. symmetry.
    assert (- a / 1000 = - c); [|lia].
    symmetry. apply (Z.div_unique (- a) 1000 (- c) (1000 * c - a)); lia.
Qed.

Lemma clearExpired_lookup (store : gmap string bucket) now W k :
  clearExpired store now W !! k =
  match store !! k with
  | Some b => if expired now W b then None else Some b
  | None => None
  end.
Proof.
  unfold clearExpired. rewrite map_lookup_filter.
  destruct (store !! k) as [b|]; simpl; [|done].
  by destruct (expired now W b).
Qed.

Section One_request.
Variables (lim : limiter) (req : request) (now : Z) (r : res).
Variable store : gmap string bucket.

Let swept := clearExpired store now (windowMs lim).
Let result := createIpRateLimiter lim req now r store.

(** No entry, or an entry whose window has elapsed. *)
Lemma limiter_opens_window :
  (store !! getIp req = None ∨
   ∃ b, store !! getIp req = Some b ∧ windowMs lim ≤ now - windowStart b) →
  result = (true, r, <[getIp req := Bucket 1 now]> swept).
Proof.
  intros H. unfold result, createIpRateLimiter. fold swept.
  assert (swept !! getIp req = None) as ->; [|done].
  unfold swept. rewrite clearExpired_lookup.
  destruct H as [->|(b & -> & Hb)]; [done|].
  unfold expired. by rewrite bool_decide_eq_true_2.
Qed.

(** An entry whose window is still open. *)
Lemma limiter_counts b :
  store !! getIp req = Some b →
  now - windowStart b < windowMs lim →
  let b' := Bucket (count b + 1) (windowStart b) in
  result =
    if bool_decide (maxRequests lim < count b + 1) then
      (false,
       send (message lim)
         (status 429
            (set "Retry-After"
               (Js.String_
                  (Z.max (Js.ceil_div (windowMs lim - (now - windowStart b)) 1000) 1))
               r)),
       <[getIp req := b']> swept)
    else (true, r, <[getIp req := b']> swept).
Proof.
  intros Hb Hin. unfold result, createIpRateLimiter. fold swept.
  assert (expired now (windowMs lim) b = false) as He.
  { unfold expired. apply bool_decide_eq_false_2. lia. }
  assert (swept !! getIp req = Some b) as ->.
  { unfold swept. by rewrite clearExpired_lookup, Hb, He. }
  rewrite He. simpl. done.
Qed.
End One_request.

(** Only the requesting client's entry is written; the other entries are
    those that survive the sweep. *)
Lemma limiter_store lim req now r store :
  ∃ b, (createIpRateLimiter lim req now r store).2 =
       <[getIp req := b]> (clearExpired store now (windowMs lim)).
Proof.
  unfold createIpRateLimiter.
  destruct (clearExpired store now (windowMs lim) !! getIp req) as [b|]; [|by eexists].
  destruct (expired now (windowMs lim) b); [by eexists|]. simpl.
  case_bool_decide; by eexists.
Qed.

(** A request inside the window that opened at [t0], seen from the client
    [ip] whose entry is [{count: k, windowStart: t0}]. *)
Lemma limiter_in_window lim req now r store ip k t0 :
  store !! ip = Some (Bucket k t0) →
  now - t0 < windowMs lim →
  (createIpRateLimiter lim req now r store).2 !! ip =
    Some (Bucket (if bool_decide (getIp req = ip) then k + 1 else k) t0)
  ∧ (getIp req = ip →
     (createIpRateLimiter lim req now r store).1.1 =
       bool_decide (k + 1 ≤ maxRequests lim)).
Proof.
  intros Hk Hin. case_bool_decide as Hip.
  - subst ip. rewrite (limiter_counts lim req now r store _ Hk Hin). simpl.
    case_bool_decide as HN; simpl; rewrite lookup_insert_eq; split; try done;
      intros _; symmetry; [apply bool_decide_eq_false_2|apply bool_decide_eq_true_2]; lia.
  - split; [|done].
    destruct (limiter_store lim req now r store) as [b ->].
    rewrite lookup_insert_ne by done. rewrite clearExpired_lookup, Hk.
    unfold expired. simpl. rewrite bool_decide_eq_false_2; [done|lia].
Qed.

Lemma hits_cons ip rq reqs :
  hits ip (rq :: reqs) =
  ((if bool_decide (getIp rq.1 = ip) then 1 else 0) + hits ip reqs)%nat.
Proof.
  unfold hits. rewrite filter_cons. case_decide; case_bool_decide; done.
Qed.

(** The decisions taken while a window stays open count the client's
    requests against the budget. *)
Lemma serve_in_window lim ip t0 reqs :
  ∀ store k i rq t,
    store !! ip = Some (Bucket k t0) →
    Forall (λ rq, rq.2 - t0 < windowMs lim) reqs →
    reqs !! i = Some (rq, t) →
    getIp rq = ip →
    serve lim reqs store !! i =
      Some (bool_decide (k + Z.of_nat (hits ip (take (S i) reqs)) ≤ maxRequests lim)).
Proof.
  induction reqs as [|[rq0 t0'] reqs IH]; intros store k i rq t Hk Hall Hi Hip; [done|].
  apply Forall_cons in Hall as [Hhd Hall]. simpl in Hhd.
  destruct (limiter_in_window lim rq0 t0' createRes store ip k t0 Hk Hhd) as [Hst Hdec].
  simpl serve. destruct (createIpRateLimiter lim rq0 t0' createRes store) as [[nxt r'] st'].
  simpl in Hst, Hdec. destruct i as [|i].
  - simpl in Hi. injection Hi as -> ->. simpl. rewrite (Hdec Hip).
    rewrite hits_cons. simpl. rewrite (bool_decide_eq_true_2 (getIp rq = ip)) by done.
    done.
  - simpl in Hi. rewrite lookup_cons. simpl lookup.
    rewrite (IH st' _ i rq t Hst Hall Hi Hip).
    change (take (S (S i)) ((rq0, t0') :: reqs)) with ((rq0, t0') :: take (S i) reqs).
    rewrite hits_cons. simpl.
    destruct (bool_decide (getIp rq0 = ip)); f_equal; apply bool_decide_ext; lia.
Qed.

Lemma hits_app ip l1 l2 : hits ip (l1 ++ l2) = (hits ip l1 + hits ip l2)%nat.
Proof. unfold hits. by rewrite filter_app, length_app. Qed.

Lemma hits_own ip (reqs : list (request * Z)) i rq t :
  reqs !! i = Some (rq, t) → getIp rq = ip → (1 ≤ hits ip (take (S i) reqs))%nat.
Proof.
  intros Hi Hip. rewrite (take_S_r _ _ _ Hi), hits_app, hits_cons. simpl.
  rewrite bool_decide_eq_true_2 by done. lia.
Qed.

Lemma served_cons lim rq t reqs store :
  served lim ((rq, t) :: reqs) store =
  served lim reqs (createIpRateLimiter lim rq t createRes store).2.
Proof. done. Qed.

Lemma serve_app lim l1 l2 store :
  serve lim (l1 ++ l2) store = serve lim l1 store ++ serve lim l2 (served lim l1 store).
Proof.
  revert store. induction l1 as [|[rq t] l1 IH]; intros store; [done|].
  rewrite served_cons. simpl.
  destruct (createIpRateLimiter lim rq t createRes store) as [[nxt r'] st'].
  simpl. f_equal. apply IH.
Qed.

Lemma serve_length lim reqs store : length (serve lim reqs store) = length reqs.
Proof.
  revert store. induction reqs as [|[rq t] reqs IH]; intros store; [done|].
  simpl. destruct (createIpRateLimiter lim rq t createRes store) as [[nxt r'] st'].
  simpl. by rewrite IH.
Qed.

Lemma served_in_window lim ip t0 reqs :
  ∀ store k,
    store !! ip = Some (Bucket k t0) →
    Forall (λ rq, rq.2 - t0 < windowMs lim) reqs →
    served lim reqs store !! ip = Some (Bucket (k + Z.of_nat (hits ip reqs)) t0).
Proof.
  induction reqs as [|[rq t] reqs IH]; intros store k Hk Hall.
  - simpl. rewrite Hk. do 2 f_equal. unfold hits. simpl. lia.
  - apply Forall_cons in Hall as [Hhd Hall]. simpl in Hhd.
    destruct (limiter_in_window lim rq t createRes store ip k t0 Hk Hhd) as [Hst _].
    rewrite served_cons, (IH _ _ Hst Hall), hits_cons. simpl.
    case_bool_decide; do 2 f_equal; lia.
Qed.

(** C1 (as amended): the limiter built by [createIpRateLimiter] with
    [maxRequests = N] and [windowMs = W].
    - A request of a client with no entry, or whose window has elapsed
      ([now - windowStart >= W]), is allowed and leaves the entry
      [{count: 1, windowStart: now}].
    - Any other request increments the count; it is denied exactly when
      the incremented count exceeds [N], then with status 429, the
      limiter's message and [Retry-After] set to
      [ceil ((W - (now - windowStart)) / 1000)], at least 1.
    - While the window that a request opened stays open, the client's
      n-th request is allowed exactly when [n = 1] or [n <= N], whatever
      other clients do in between; so for [N >= 1] the (N+1)-th is denied.
    - The client's first request once the window has elapsed is allowed. *)
Theorem fixed_window_limiter (lim : limiter) (req : request) (now : Z) (r : res)
    (store : gmap string bucket) :
  let ip := getIp req in
  let N := maxRequests lim in
  let W := windowMs lim in
  let result := createIpRateLimiter lim req now r store in
  (opens lim req now store →
     result.1 = (true, r) ∧ result.2 !! ip = Some (Bucket 1 now))
  ∧ (∀ b, store !! ip = Some b → now - windowStart b < W →
       result.2 !! ip = Some (Bucket (count b + 1) (windowStart b))
       ∧ (result.1.1 = false ↔ N < count b + 1)
       ∧ (result.1.1 = true → result.1.2 = r)
       ∧ (result.1.1 = false →
            statusCode result.1.2 = 429 ∧ body result.1.2 = message lim
            ∧ ∃ c, 1000 * (c - 1) < W - (now - windowStart b) ≤ 1000 * c
                   ∧ header "Retry-After" result.1.2 = Some (Js.String_ (Z.max c 1))))
  ∧ (∀ trace i rq t,
       opens lim req now store →
       Forall (λ rq, rq.2 - now < W) trace →
       ((req, now) :: trace) !! i = Some (rq, t) → getIp rq = ip →
       let n := Z.of_nat (hits ip (take (S i) ((req, now) :: trace))) in
       serve lim ((req, now) :: trace) store !! i = Some (bool_decide (n = 1 ∨ n ≤ N))
       ∧ (1 ≤ N → n = N + 1 →
            serve lim ((req, now) :: trace) store !! i = Some false))
  ∧ (∀ trace rq t,
       opens lim req now store →
       Forall (λ rq, rq.2 - now < W) trace →
       getIp rq = ip → W ≤ t - now →
       serve lim ((req, now) :: trace ++ [(rq, t)]) store !! S (length trace)
         = Some true).
Proof.
  intros ip N W result. split; [|split; [|split]].
  - intros Ho. unfold result. rewrite limiter_opens_window by done.
    split; [done|apply lookup_insert_eq].
  - intros b Hb Hin. unfold result. rewrite (limiter_counts _ _ _ _ _ _ Hb Hin).
    fold N W. case_bool_decide as HN; simpl.
    + split; [apply lookup_insert_eq|]. split; [done|]. split; [done|].
      intros _. split; [done|]. split; [done|].
      exists (Js.ceil_div (W - (now - windowStart b)) 1000).
      split; [by apply ceil_div_spec|done].
    + split; [apply lookup_insert_eq|]. split; [split; [done|lia]|]. done.
  - intros trace i rq t Ho Hall Hi Hip n.
    assert (serve lim ((req, now) :: trace) store !! i = Some (bool_decide (n = 1 ∨ n ≤ N)))
      as Hserve.
    { simpl serve. pose proof (limiter_opens_window lim req now createRes store Ho) as E.
      rewrite E. destruct i as [|i].
      - simpl. f_equal. symmetry. apply bool_decide_eq_true_2. left.
        subst n. simpl take. rewrite take_0, hits_cons. simpl.
        rewrite bool_decide_eq_true_2 by done. done.
      - simpl in Hi. rewrite lookup_cons. simpl lookup.
        rewrite (serve_in_window lim ip now trace _ 1 i rq t); [|apply lookup_insert_eq|done..].
        f_equal. apply bool_decide_ext. subst n.
        change (take (S (S i)) ((req, now) :: trace)) with ((req, now) :: take (S i) trace).
        rewrite hits_cons. simpl. rewrite bool_decide_eq_true_2 by done.
        pose proof (hits_own ip trace i rq t Hi Hip). lia. }
    split; [done|]. intros HN Hn. rewrite Hserve. f_equal.
    apply bool_decide_eq_false_2. lia.
  - intros trace rq t Ho Hall Hip Hout.
    change ((req, now) :: trace ++ [(rq, t)]) with (((req, now) :: trace) ++ [(rq, t)]).
    rewrite serve_app, lookup_app_r; rewrite serve_length; simpl; [|lia].
    rewrite Nat.sub_diag. simpl.
    assert (served lim ((req, now) :: trace) store !! ip
            = Some (Bucket (1 + Z.of_nat (hits ip trace)) now)) as Hst.
    { rewrite served_cons, (limiter_opens_window lim req now createRes store Ho). simpl.
      apply served_in_window; [apply lookup_insert_eq|done]. }
    rewrite limiter_opens_window; [done|]. right. rewrite Hip. eexists. split; [exact Hst|done].
Qed.

(** The global limiter of the test suite: a budget of three, four requests
    in a row. *)
Example global_burst :
  let req := {| ip := Some "10.0.0.1"; remoteAddress := Some "10.0.0.1";
                file := None; fields := ∅ |} in
  serve {| maxRequests := 3; windowMs := 60000;
           message := "Too many requests. Please try again later." |}
        [(req, 0); (req, 1); (req, 2); (req, 3)] ∅
  = [true; true; true; false].
Proof. reflexivity. Qed.

(** A denial 14.2 s into a 60 s window asks the client to come back after
    46 s. *)
Example retry_after_header :
  let req := {| ip := Some "10.0.0.1"; remoteAddress := None; file := None; fields := ∅ |} in
  let lim := {| maxRequests := 1; windowMs := 60000; message := "slow down" |} in
  header "Retry-After"
    (createIpRateLimiter lim req 14200 createRes
       (<["10.0.0.1" := Bucket 1 0]> ∅)).1.2 = Some "46".
Proof. reflexivity. Qed.

(** The test suite's burst, for the heavy limiter with a budget of two:
    the third request inside the window is denied, and the same client is
    served again once the window has elapsed. *)
Lemma fixed_window_limiter_witness :
  let lim := {| maxRequests := 2; windowMs := 60000;
                message := "Too many conversion requests. Please wait and retry." |} in
  let req := {| ip := Some "20.0.0.1"; remoteAddress := Some "20.0.0.1";
                file := None; fields := ∅ |} in
  serve lim [(req, 0); (req, 10); (req, 20)] ∅ !! 2%nat = Some false
  ∧ serve lim [(req, 0); (req, 10); (req, 20); (req, 60000)] ∅ !! 3%nat = Some true.
Proof.
  intros lim req.
  destruct (fixed_window_limiter lim req 0 createRes ∅) as (_ & _ & Hin & Hout).
  split.
  - apply (Hin [(req, 10); (req, 20)] 2%nat req 20).
    + left. reflexivity.
    + repeat constructor; simpl; lia.
    + reflexivity.
    + reflexivity.
    + simpl. lia.
    + reflexivity.
  - apply (Hout [(req, 10); (req, 20)] req 60000).
    + left. reflexivity.
    + repeat constructor; simpl; lia.
    + reflexivity.
    + simpl. lia.
Defined.

(** With a budget of zero the (N+1)-th request of a window is the request
    that opens it, and that request is let through. *)
Lemma zero_budget_first_request_allowed :
  let lim := {| maxRequests := 0; windowMs := 60000;
                message := "Too many requests. Please try again later." |} in
  let req := {| ip := Some "10.0.0.1"; remoteAddress := Some "10.0.0.1";
                file := None; fields := ∅ |} in
  Z.of_nat (hits (getIp req) [(req, 0)]) = maxRequests lim + 1
  ∧ (createIpRateLimiter lim req 0 createRes ∅).1 = (true, createRes)
  ∧ serve lim [(req, 0)] ∅ ≠ [false].
Proof. repeat split. intros H. discriminate H. Qed.

End LimiterFacts.

(** ** The concurrency gate *)

Module GateFacts.
Import Express Throttle Runs.

Lemma gate_admits cfg req now r srv :
  activeHeavyJobs srv < MAX_CONCURRENT_JOBS cfg →
  limitConcurrentHeavyJobs cfg req now r srv =
    (true,
     on "close" (length (released srv)) (on "finish" (length (released srv)) r),
     {| globalIpHits := globalIpHits srv; heavyIpHits := heavyIpHits srv;
        activeHeavyJobs := activeHeavyJobs srv + 1;
        released := released srv ++ [false] |}).
Proof.
  intros H. unfold limitConcurrentHeavyJobs.
  rewrite bool_decide_eq_false_2; [done|lia].
Qed.

Lemma gate_denies cfg req now r srv :
  MAX_CONCURRENT_JOBS cfg ≤ activeHeavyJobs srv →
  limitConcurrentHeavyJobs cfg req now r srv =
    (false, send "Server is busy. Please retry shortly."
              (status 429 (set "Retry-After" "10" r)), srv).
Proof.
  intros H. unfold limitConcurrentHeavyJobs.
  rewrite bool_decide_eq_true_2; done.
Qed.

(** Both events of a response that passed the gate run the one closure
    the gate registered on it. *)
Lemma emit_admitted ev j r srv :
  handlers r = [] →
  ev = "finish" ∨ ev = "close" →
  emit ev (on "close" j (on "finish" j r)) srv = release j srv.
Proof. intros Hr [-> | ->]; unfold emit; simpl; rewrite Hr; done. Qed.

Lemma release_again j srv : release j (release j srv) = release j srv.
Proof.
  unfold release at 2 3.
  destruct (released srv !! j) as [[]|] eqn:E; unfold release; simpl; rewrite ?E; try done.
  rewrite list_lookup_insert_eq; [done|]. by eapply lookup_lt_Some.
Qed.

Lemma live_app l1 l2 :
  length (filter (λ b : bool, b = false) (l1 ++ l2)) =
  (length (filter (λ b : bool, b = false) l1)
   + length (filter (λ b : bool, b = false) l2))%nat.
Proof. by rewrite filter_app, length_app. Qed.

Lemma live_insert (l : list bool) j :
  l !! j = Some false →
  S (length (filter (λ b : bool, b = false) (<[j := true]> l))) =
  length (filter (λ b : bool, b = false) l).
Proof.
  revert j. induction l as [|b l IH]; intros j Hj; [done|].
  destruct j as [|j]; simpl in *.
  - injection Hj as ->. rewrite !filter_cons. repeat case_decide; done.
  - rewrite !filter_cons. case_decide; simpl; rewrite <- (IH j Hj); done.
Qed.

Lemma step_accounted cfg srv e : accounted cfg srv → accounted cfg (step cfg srv e).
Proof.
  intros [Hlive Hcap]. destruct e as [req now|req now|req now|j|j]; simpl.
  - unfold globalRateLimit.
    destruct (createIpRateLimiter _ _ _ _ _) as [[? ?] ?]. done.
  - unfold heavyRouteRateLimit.
    destruct (createIpRateLimiter _ _ _ _ _) as [[? ?] ?]. done.
  - destruct (decide (activeHeavyJobs srv < MAX_CONCURRENT_JOBS cfg)).
    + rewrite gate_admits by done. unfold accounted, live in *. simpl.
      rewrite live_app. simpl. lia.
    + rewrite gate_denies by lia. done.
  - unfold release. destruct (released srv !! j) as [[]|] eqn:E; try done.
    unfold accounted, live in *. simpl.
    pose proof (live_insert _ _ E). lia.
  - unfold release. destruct (released srv !! j) as [[]|] eqn:E; try done.
    unfold accounted, live in *. simpl.
    pose proof (live_insert _ _ E). lia.
Qed.

Lemma reachable_accounted cfg srv : reachable cfg srv → accounted cfg srv.
Proof.
  intros [es ->]. induction es as [|e es IH] using rev_ind.
  - unfold accounted, live. simpl. lia.
  - unfold steps in *. rewrite foldl_snoc. by apply step_accounted.
Qed.

Lemma reachable_step cfg srv e : reachable cfg srv → reachable cfg (step cfg srv e).
Proof.
  intros [es ->]. exists (es ++ [e]). unfold steps. by rewrite foldl_snoc.
Qed.

(** C2: [limitConcurrentHeavyJobs] calls [next ()] and adds one to
    [activeHeavyJobs] exactly when the counter is below
    [MAX_CONCURRENT_JOBS]; otherwise it answers 429 with
    [Retry-After: 10] and leaves the module state as it was.  With a cap
    of 2 and no job running, the first two of three requests are
    admitted and the third is denied; once the response of either
    admitted job has finished or closed, the next request is admitted.
    In every state the server can be in, a job that still holds its slot
    frees one for the next request when its response finishes or
    closes. *)
Theorem gate_admission (cfg : config) (srv : server) (req : request) (now : Z)
    (r : res) :
  let cap := MAX_CONCURRENT_JOBS cfg in
  let gate := limitConcurrentHeavyJobs cfg req now r srv in
  (gate.1.1 = true ↔ activeHeavyJobs srv < cap)
  ∧ (activeHeavyJobs srv < cap → activeHeavyJobs gate.2 = activeHeavyJobs srv + 1)
  ∧ (cap ≤ activeHeavyJobs srv →
       gate.2 = srv ∧ statusCode gate.1.2 = 429
       ∧ header "Retry-After" gate.1.2 = Some "10"
       ∧ body gate.1.2 = "Server is busy. Please retry shortly.")
  ∧ (cap = 2 → activeHeavyJobs srv = 0 →
       ∀ req2 now2 req3 now3 req4 now4,
         let first := limitConcurrentHeavyJobs cfg req now createRes srv in
         let second := limitConcurrentHeavyJobs cfg req2 now2 createRes first.2 in
         let third := limitConcurrentHeavyJobs cfg req3 now3 createRes second.2 in
         first.1.1 = true ∧ second.1.1 = true ∧ third.1.1 = false
         ∧ statusCode third.1.2 = 429 ∧ header "Retry-After" third.1.2 = Some "10"
         ∧ ∀ ev done_, (ev = "finish" ∨ ev = "close") →
             (done_ = first.1.2 ∨ done_ = second.1.2) →
             (limitConcurrentHeavyJobs cfg req4 now4 createRes
                (emit ev done_ third.2)).1.1 = true)
  ∧ (reachable cfg srv →
       ∀ j, released srv !! j = Some false →
         (limitConcurrentHeavyJobs cfg req now r (release j srv)).1.1 = true).
Proof.
  intros cap gate. split; [|split; [|split; [|split]]].
  - unfold gate. destruct (decide (activeHeavyJobs srv < cap)).
    + rewrite gate_admits by done. done.
    + rewrite gate_denies by (fold cap; lia). simpl. split; [done|lia].
  - intros H. unfold gate. by rewrite gate_admits.
  - intros H. unfold gate. by rewrite gate_denies.
  - intros Hcap H0 req2 now2 req3 now3 req4 now4 first second third.
    assert (first = (true, on "close" (length (released srv))
                             (on "finish" (length (released srv)) createRes),
                     {| globalIpHits := globalIpHits srv; heavyIpHits := heavyIpHits srv;
                        activeHeavyJobs := 1; released := released srv ++ [false] |}))
      as E1.
    { unfold first. rewrite gate_admits by (fold cap; lia). by rewrite H0. }
    assert (second = (true, on "close" (S (length (released srv)))
                              (on "finish" (S (length (released srv))) createRes),
                      {| globalIpHits := globalIpHits srv; heavyIpHits := heavyIpHits srv;
                         activeHeavyJobs := 2;
                         released := (released srv ++ [false]) ++ [false] |}))
      as E2.
    { unfold second. rewrite E1. rewrite gate_admits by (simpl; fold cap; lia). simpl.
      rewrite length_app. simpl. rewrite Nat.add_1_r. done. }
    assert (third.2 = second.2 ∧ third.1.1 = false ∧ statusCode third.1.2 = 429
            ∧ header "Retry-After" third.1.2 = Some "10") as (E3 & ? & ? & ?).
    { unfold third. rewrite E2. rewrite gate_denies by (simpl; fold cap; lia). done. }
    rewrite E1, E2. repeat (split; [done|]).
    intros ev done_ Hev Hdone. rewrite E3, E2. simpl.
    assert (∃ j, emit ev done_
              {| globalIpHits := globalIpHits srv; heavyIpHits := heavyIpHits srv;
                 activeHeavyJobs := 2;
                 released := (released srv ++ [false]) ++ [false] |}
            = {| globalIpHits := globalIpHits srv; heavyIpHits := heavyIpHits srv;
                 activeHeavyJobs := 1;
                 released := <[j := true]> ((released srv ++ [false]) ++ [false]) |})
      as [j ->].
    { destruct Hdone as [-> | ->]; rewrite ?E1, ?E2; simpl;
        rewrite emit_admitted by done; unfold release; simpl.
      - exists (length (released srv)).
        rewrite <- app_assoc, lookup_app_r, Nat.sub_diag by done. done.
      - exists (S (length (released srv))).
        rewrite lookup_app_r; rewrite length_app; simpl; [|lia].
        replace (S (length (released srv)) - (length (released srv) + 1))%nat
          with 0%nat by lia. done. }
    rewrite gate_admits by (simpl; fold cap; lia). done.
  - intros Hreach j Hj.
    destruct (reachable_accounted cfg srv Hreach) as [Hlive Hle].
    rewrite gate_admits; [done|]. unfold release. rewrite Hj. simpl.
    assert (1 ≤ activeHeavyJobs srv).
    { rewrite Hlive. unfold live. pose proof (live_insert _ _ Hj). lia. }
    fold cap in Hle. lia.
Qed.

(** Three requests against a cap of two, then [finish] on the first
    response, as in the test suite; and a slot freed in a reachable
    state. *)
Lemma gate_admission_witness :
  let cfg := {| WINDOW_MS := 60000; MAX_REQUESTS_PER_WINDOW := 3;
                HEAVY_MAX_REQUESTS_PER_WINDOW := 2; MAX_CONCURRENT_JOBS := 2 |} in
  let req := {| ip := Some "30.0.0.1"; remoteAddress := Some "30.0.0.1";
                file := None; fields := ∅ |} in
  let gate := limitConcurrentHeavyJobs cfg req 0 createRes in
  (gate (emit "finish" (gate boot).1.2 (gate (gate (gate boot).2).2).2)).1.1 = true
  ∧ (gate (release 0 (steps cfg [Gate req 0; Gate req 0] boot))).1.1 = true.
Proof.
  intros cfg req gate.
  destruct (gate_admission cfg boot req 0 createRes) as (_ & _ & _ & Hthree & _).
  destruct (gate_admission cfg (steps cfg [Gate req 0; Gate req 0] boot) req 0 createRes)
    as (_ & _ & _ & _ & Hfree).
  split.
  - destruct (Hthree eq_refl eq_refl req 0 req 0 req 0) as (_ & _ & _ & _ & _ & Hnext).
    apply (Hnext "finish" (gate boot).1.2); [left; reflexivity|left; reflexivity].
  - apply Hfree; [exists [Gate req 0; Gate req 0]; reflexivity|reflexivity].
Defined.

Lemma released_stays cfg j es srv :
  released srv !! j = Some true → released (steps cfg es srv) !! j = Some true.
Proof.
  revert srv. induction es as [|e es IH]; intros srv Hj; [done|].
  apply IH. destruct e as [req now|req now|req now|i|i]; simpl.
  - unfold globalRateLimit. by destruct (createIpRateLimiter _ _ _ _ _) as [[? ?] ?].
  - unfold heavyRouteRateLimit. by destruct (createIpRateLimiter _ _ _ _ _) as [[? ?] ?].
  - unfold limitConcurrentHeavyJobs. case_bool_decide; simpl; [done|].
    by apply lookup_app_l_Some.
  - unfold release. destruct (released srv !! i) as [[]|] eqn:E; try done. simpl.
    destruct (decide (i = j)) as [->|]; [congruence|]. by rewrite list_lookup_insert_ne.
  - unfold release. destruct (released srv !! i) as [[]|] eqn:E; try done. simpl.
    destruct (decide (i = j)) as [->|]; [congruence|]. by rewrite list_lookup_insert_ne.
Qed.

Lemma release_released j srv : released srv !! j = Some true → release j srv = srv.
Proof. intros H. unfold release. by rewrite H. Qed.

(** C3: in every state the server can reach, the counter is the number
    of admitted jobs whose release has not run, hence never negative;
    a job is admitted only with the counter, after the increment, within
    the cap; and whatever non-empty sequence of [finish] and [close]
    events the response of an admitted job emits lowers the counter by
    exactly one.  The first release of a job that holds a slot lowers the
    counter by one, and once a job's release has run, its release paths
    leave every later state as it is, whatever happened in between. *)
Theorem release_exactly_once (cfg : config) (srv : server) (req : request) (now : Z) :
  reachable cfg srv →
  let gate := limitConcurrentHeavyJobs cfg req now createRes srv in
  0 ≤ activeHeavyJobs srv
  ∧ activeHeavyJobs srv = Z.of_nat (live srv)
  ∧ (gate.1.1 = true →
       activeHeavyJobs gate.2 = activeHeavyJobs srv + 1
       ∧ activeHeavyJobs gate.2 ≤ MAX_CONCURRENT_JOBS cfg
       ∧ ∀ evs, evs ≠ [] → Forall (λ ev, ev = "finish" ∨ ev = "close") evs →
           activeHeavyJobs (foldl (λ s ev, emit ev gate.1.2 s) gate.2 evs)
           = activeHeavyJobs gate.2 - 1)
  ∧ (∀ j, released srv !! j = Some false →
       activeHeavyJobs (release j srv) = activeHeavyJobs srv - 1)
  ∧ (∀ j es, released srv !! j = Some true →
       release j (steps cfg es srv) = steps cfg es srv).
Proof.
  intros Hreach gate. destruct (reachable_accounted cfg srv Hreach) as [Hlive Hle].
  split; [lia|]. split; [done|]. split; [|split].
  2:{ intros j Hj. unfold release. rewrite Hj. simpl.
      unfold live in Hlive. pose proof (live_insert _ _ Hj). lia. }
  - intros Hadm. assert (activeHeavyJobs srv < MAX_CONCURRENT_JOBS cfg) as Hlt.
    { destruct (decide (activeHeavyJobs srv < MAX_CONCURRENT_JOBS cfg)); [done|].
      unfold gate in Hadm. rewrite gate_denies in Hadm by lia. discriminate Hadm. }
    unfold gate. rewrite gate_admits by done. simpl.
    split; [done|]. split; [lia|]. intros evs Hne Hevs.
    set (j := length (released srv)).
    set (srv1 := {| globalIpHits := globalIpHits srv; heavyIpHits := heavyIpHits srv;
                    activeHeavyJobs := activeHeavyJobs srv + 1;
                    released := released srv ++ [false] |}).
    assert (∀ evs s, Forall (λ ev, ev = "finish" ∨ ev = "close") evs →
              foldl (λ s ev, emit ev (on "close" j (on "finish" j createRes)) s)
                    (release j s) evs = release j s) as Hrest.
    { clear. induction evs as [|ev evs IH]; intros s Hevs; [done|].
      apply Forall_cons in Hevs as [Hev Hevs]. simpl.
      rewrite emit_admitted, release_again by done. by apply IH. }
    destruct evs as [|ev evs]; [done|]. apply Forall_cons in Hevs as [Hev Hevs].
    simpl. rewrite emit_admitted by done. rewrite Hrest by done.
    unfold release, srv1, j. simpl.
    rewrite lookup_app_r, Nat.sub_diag by done. simpl. lia.
  - intros j es Hj. apply release_released. by apply released_stays.
Qed.

Lemma release_exactly_once_witness :
  let cfg := {| WINDOW_MS := 60000; MAX_REQUESTS_PER_WINDOW := 3;
                HEAVY_MAX_REQUESTS_PER_WINDOW := 2; MAX_CONCURRENT_JOBS := 2 |} in
  let req := {| ip := Some "30.0.0.1"; remoteAddress := Some "30.0.0.1";
                file := None; fields := ∅ |} in
  let srv := steps cfg [Gate req 0] boot in
  let gate := limitConcurrentHeavyJobs cfg req 5 createRes srv in
  activeHeavyJobs srv = 1
  ∧ activeHeavyJobs
      (emit "close" gate.1.2 (emit "finish" gate.1.2 (emit "close" gate.1.2 gate.2))) = 1.
Proof.
  intros cfg req srv gate.
  assert (reachable cfg srv) as Hreach by (exists [Gate req 0]; reflexivity).
  destruct (release_exactly_once cfg srv req 5 Hreach) as (_ & _ & Hadm & _ & _).
  destruct (Hadm eq_refl) as (_ & _ & Honce).
  split; [reflexivity|].
  apply (Honce ["close"; "finish"; "close"]); [discriminate|].
  apply List.Forall_cons; [right; reflexivity|].
  apply List.Forall_cons; [left; reflexivity|].
  apply List.Forall_cons; [right; reflexivity|].
  apply List.Forall_nil.
Defined.

End GateFacts.

(** ** Independence of the two limiters *)

Module FrameFacts.
Import Express Throttle Runs.

Lemma release_stores j srv :
  globalIpHits (release j srv) = globalIpHits srv
  ∧ heavyIpHits (release j srv) = heavyIpHits srv.
Proof. unfold release. by destruct (released srv !! j) as [[]|]. Qed.

Lemma step_keeps_global cfg srv e :
  on_global e = false → globalIpHits (step cfg srv e) = globalIpHits srv.
Proof.
  destruct e as [req now|req now|req now|j|j]; simpl; intros H; try done.
  - unfold heavyRouteRateLimit. by destruct (createIpRateLimiter _ _ _ _ _) as [[? ?] ?].
  - unfold limitConcurrentHeavyJobs. by case_bool_decide.
  - apply release_stores.
  - apply release_stores.
Qed.

Lemma step_keeps_heavy cfg srv e :
  on_heavy e = false → heavyIpHits (step cfg srv e) = heavyIpHits srv.
Proof.
  destruct e as [req now|req now|req now|j|j]; simpl; intros H; try done.
  - unfold globalRateLimit. by destruct (createIpRateLimiter _ _ _ _ _) as [[? ?] ?].
  - unfold limitConcurrentHeavyJobs. by case_bool_decide.
  - apply release_stores.
  - apply release_stores.
Qed.

Lemma global_decision cfg req now r srv :
  (globalRateLimit cfg req now r srv).1 =
  (createIpRateLimiter (globalLimiter cfg) req now r (globalIpHits srv)).1.
Proof.
  unfold globalRateLimit. by destruct (createIpRateLimiter _ _ _ _ _) as [[? ?] ?].
Qed.

Lemma heavy_decision cfg req now r srv :
  (heavyRouteRateLimit cfg req now r srv).1 =
  (createIpRateLimiter (heavyLimiter cfg) req now r (heavyIpHits srv)).1.
Proof.
  unfold heavyRouteRateLimit. by destruct (createIpRateLimiter _ _ _ _ _) as [[? ?] ?].
Qed.

(** C6: the global limiter reads and writes [globalIpHits] only and the
    heavy limiter [heavyIpHits] only.  A run of the server in which the
    global limiter is not invoked (heavy-limiter invocations, gate
    admissions, releases) leaves [globalIpHits] as it was, so the global
    limiter answers every later request, and every later sequence of
    requests, as it would have without that run; and the same with the
    two limiters exchanged. *)
Theorem limiters_share_no_state (cfg : config) (es : list event) (srv : server) :
  (Forall (λ e, on_global e = false) es →
     globalIpHits (steps cfg es srv) = globalIpHits srv
     ∧ (∀ req now r, (globalRateLimit cfg req now r (steps cfg es srv)).1
                     = (globalRateLimit cfg req now r srv).1)
     ∧ (∀ reqs, serve (globalLimiter cfg) reqs (globalIpHits (steps cfg es srv))
                = serve (globalLimiter cfg) reqs (globalIpHits srv)))
  ∧ (Forall (λ e, on_heavy e = false) es →
     heavyIpHits (steps cfg es srv) = heavyIpHits srv
     ∧ (∀ req now r, (heavyRouteRateLimit cfg req now r (steps cfg es srv)).1
                     = (heavyRouteRateLimit cfg req now r srv).1)
     ∧ (∀ reqs, serve (heavyLimiter cfg) reqs (heavyIpHits (steps cfg es srv))
                = serve (heavyLimiter cfg) reqs (heavyIpHits srv))).
Proof.
  split; intros Hes.
  - assert (globalIpHits (steps cfg es srv) = globalIpHits srv) as E.
    { revert srv. induction Hes as [|e es He Hes IH]; intros srv; [done|].
      unfold steps in *. simpl. by rewrite IH, step_keeps_global. }
    split; [done|]. split.
    + intros req now r. by rewrite !global_decision, E.
    + intros reqs. by rewrite E.
  - assert (heavyIpHits (steps cfg es srv) = heavyIpHits srv) as E.
    { revert srv. induction Hes as [|e es He Hes IH]; intros srv; [done|].
      unfold steps in *. simpl. by rewrite IH, step_keeps_heavy. }
    split; [done|]. split.
    + intros req now r. by rewrite !heavy_decision, E.
    + intros reqs. by rewrite E.
Qed.

(** A client that has used up its heavy budget of two is still served by
    the global limiter as if it had never asked, and conversely. *)
Lemma limiters_share_no_state_witness :
  let cfg := {| WINDOW_MS := 60000; MAX_REQUESTS_PER_WINDOW := 3;
                HEAVY_MAX_REQUESTS_PER_WINDOW := 2; MAX_CONCURRENT_JOBS := 2 |} in
  let req := {| ip := Some "20.0.0.1"; remoteAddress := Some "20.0.0.1";
                file := None; fields := ∅ |} in
  let heavy := [Heavy req 0; Heavy req 1; Heavy req 2] in
  let global := [Global req 0; Global req 1; Global req 2; Global req 3] in
  (heavyRouteRateLimit cfg req 3 createRes (steps cfg heavy boot)).1.1 = false
  ∧ (globalRateLimit cfg req 3 createRes (steps cfg heavy boot)).1
    = (globalRateLimit cfg req 3 createRes boot).1
  ∧ (heavyRouteRateLimit cfg req 4 createRes (steps cfg global boot)).1
    = (heavyRouteRateLimit cfg req 4 createRes boot).1.
Proof.
  intros cfg req heavy global.
  destruct (limiters_share_no_state cfg heavy boot) as [Hglobal _].
  destruct (limiters_share_no_state cfg global boot) as [_ Hheavy].
  split; [reflexivity|]. split.
  - apply Hglobal. repeat constructor.
  - apply Hheavy. repeat constructor.
Defined.

End FrameFacts.

(** ** Requests without a payload *)

Module PayloadFacts.
Import Express Throttle Runs Fs Routes.

(** A limiter either passes the response on untouched or answers 429. *)
Lemma limiter_reply lim req now r store :
  let result := createIpRateLimiter lim req now r store in
  result.1 = (true, r)
  ∨ (result.1.1 = false ∧ statusCode result.1.2 = 429 ∧ sent result.1.2 = true).
Proof.
  simpl. unfold createIpRateLimiter.
  destruct (clearExpired store now (windowMs lim) !! getIp req) as [b|]; [|by left].
  destruct (expired now (windowMs lim) b); [by left|]. simpl.
  case_bool_decide; [by right|by left].
Qed.

Lemma global_reply cfg req now r srv :
  let result := globalRateLimit cfg req now r srv in
  activeHeavyJobs result.2 = activeHeavyJobs srv
  ∧ released result.2 = released srv
  ∧ (result.1 = (true, r)
     ∨ (result.1.1 = false ∧ statusCode result.1.2 = 429 ∧ sent result.1.2 = true)).
Proof.
  simpl. unfold globalRateLimit.
  pose proof (limiter_reply (globalLimiter cfg) req now r (globalIpHits srv)) as H.
  simpl in H. by destruct (createIpRateLimiter _ _ _ _ _) as [[? ?] ?].
Qed.

Lemma heavy_reply cfg req now r srv :
  let result := heavyRouteRateLimit cfg req now r srv in
  activeHeavyJobs result.2 = activeHeavyJobs srv
  ∧ released result.2 = released srv
  ∧ (result.1 = (true, r)
     ∨ (result.1.1 = false ∧ statusCode result.1.2 = 429 ∧ sent result.1.2 = true)).
Proof.
  simpl. unfold heavyRouteRateLimit.
  pose proof (limiter_reply (heavyLimiter cfg) req now r (heavyIpHits srv)) as H.
  simpl in H. by destruct (createIpRateLimiter _ _ _ _ _) as [[? ?] ?].
Qed.

Lemma chain_cons (m : middleware) ms req now r srv :
  chain (m :: ms) req now r srv =
  (if (m req now r srv).1.1
   then chain ms req now (m req now r srv).1.2 (m req now r srv).2
   else (false, (m req now r srv).1.2, (m req now r srv).2)).
Proof. simpl. by destruct (m req now r srv) as [[[] ?] ?]. Qed.

(** C4 (as amended): on every heavy route a request without a payload
    passes through the limiters and the gate like any other request and
    leaves the file system alone.  It is answered 429 when a limiter or
    the gate turns it away, and then the counter is unchanged; otherwise
    the gate has taken a slot for it (the counter is one higher) by the
    time the handler answers 400 "No file uploaded.", and the slot is
    given back when the response finishes or closes, which returns the
    counter to its value before the request. *)
Theorem missing_payload (parseFloat : option string → Number.number)
    (cfg : config) (rt : route) (req : request) (now : Z) (srv : server) (w : world) :
  file req = None →
  0 ≤ activeHeavyJobs srv →
  ∃ r' srv',
    post parseFloat cfg rt req now createRes srv w = (Normal (r', None, srv'), w)
    ∧ sent r' = true
    ∧ (statusCode r' = 400 ∨ statusCode r' = 429)
    ∧ (statusCode r' = 429 → activeHeavyJobs srv' = activeHeavyJobs srv)
    ∧ (statusCode r' = 400 →
         body r' = "No file uploaded."
         ∧ activeHeavyJobs srv < MAX_CONCURRENT_JOBS cfg
         ∧ activeHeavyJobs srv' = activeHeavyJobs srv + 1
         ∧ released srv' = released srv ++ [false]
         ∧ ∀ ev, ev = "finish" ∨ ev = "close" →
             activeHeavyJobs (emit ev r' srv') = activeHeavyJobs srv
             ∧ ∀ ev', ev' = "finish" ∨ ev' = "close" →
                 activeHeavyJobs (emit ev' r' (emit ev r' srv')) = activeHeavyJobs srv).
Proof.
  intros Hfile H0. unfold post, stack. rewrite chain_cons.
  destruct (global_reply cfg req now createRes srv) as (Ha1 & Hr1 & H1).
  destruct (globalRateLimit cfg req now createRes srv) as [[n1 r1] srv1].
  simpl in Ha1, Hr1, H1. destruct H1 as [[= -> ->]|(-> & Hs1 & Hsent1)]; cbn [fst snd]; cycle 1.
  { exists r1, srv1. split; [done|]. split; [done|]. split; [by right|].
    split; [done|]. intros H. rewrite Hs1 in H. discriminate H. }
  rewrite chain_cons.
  destruct (heavy_reply cfg req now createRes srv1) as (Ha2 & Hr2 & H2).
  destruct (heavyRouteRateLimit cfg req now createRes srv1) as [[n2 r2] srv2].
  simpl in Ha2, Hr2, H2. destruct H2 as [[= -> ->]|(-> & Hs2 & Hsent2)]; cbn [fst snd]; cycle 1.
  { exists r2, srv2. split; [done|]. split; [done|]. split; [by right|].
    split; [lia|]. intros H. rewrite Hs2 in H. discriminate H. }
  rewrite chain_cons.
  destruct (decide (activeHeavyJobs srv2 < MAX_CONCURRENT_JOBS cfg)) as [Hlt|Hge].
  - rewrite GateFacts.gate_admits by done. simpl.
    unfold handler, bind, ret, no_file. rewrite Hfile. simpl.
    eexists _, _. split; [reflexivity|]. simpl. split; [done|]. split; [by left|].
    split; [done|]. intros _. split; [done|]. split; [lia|]. split; [lia|].
    split; [by rewrite Hr2, Hr1|].
    assert (∀ ev s, ev = "finish" ∨ ev = "close" →
              emit ev (send "No file uploaded."
                         (status 400 (on "close" (length (released srv2))
                                        (on "finish" (length (released srv2)) createRes)))) s
              = release (length (released srv2)) s) as Hemit.
    { by intros ev s [-> | ->]. }
    intros ev Hev. rewrite Hemit by done.
    assert (activeHeavyJobs
              (release (length (released srv2))
                 {| globalIpHits := globalIpHits srv2; heavyIpHits := heavyIpHits srv2;
                    activeHeavyJobs := activeHeavyJobs srv2 + 1;
                    released := released srv2 ++ [false] |}) = activeHeavyJobs srv) as E.
    { unfold release. simpl. rewrite lookup_app_r, Nat.sub_diag by done. simpl. lia. }
    split; [done|]. intros ev' Hev'. rewrite Hemit by done.
    by rewrite GateFacts.release_again.
  - rewrite GateFacts.gate_denies by lia. simpl.
    eexists _, _. split; [reflexivity|]. simpl. split; [done|]. split; [by right|].
    split; [lia|]. intros H. discriminate H.
Qed.

Lemma missing_payload_witness :
  let cfg := {| WINDOW_MS := 60000; MAX_REQUESTS_PER_WINDOW := 3;
                HEAVY_MAX_REQUESTS_PER_WINDOW := 2; MAX_CONCURRENT_JOBS := 2 |} in
  let req := {| ip := Some "30.0.0.1"; remoteAddress := Some "30.0.0.1";
                file := None; fields := ∅ |} in
  let w := {| files := ∅; console := [] |} in
  ∃ r' srv',
    post (λ _, S754_nan) cfg Extract req 0 createRes boot w = (Normal (r', None, srv'), w)
    ∧ (statusCode r' = 400 ∨ statusCode r' = 429).
Proof.
  intros cfg req w.
  destruct (missing_payload (λ _, S754_nan) cfg Extract req 0 boot w eq_refl)
    as (r' & srv' & E & _ & Hs & _); [simpl; lia|].
  exists r', srv'. split; assumption.
Defined.

(** On a freshly started server with the default configuration, a
    [/convert] request without a file is answered 400 while it holds a
    gate slot: the counter went from 0 to 1 and a [release] closure is
    registered on the response. *)
Lemma missing_payload_holds_a_slot :
  let req := {| ip := Some "30.0.0.1"; remoteAddress := Some "30.0.0.1";
                file := None; fields := ∅ |} in
  let w := {| files := ∅; console := [] |} in
  ∃ r' srv',
    post (λ _, S754_nan) defaults Convert req 0 createRes boot w
      = (Normal (r', None, srv'), w)
    ∧ statusCode r' = 400 ∧ body r' = "No file uploaded."
    ∧ handlers r' = [("finish", 0%nat); ("close", 0%nat)]
    ∧ activeHeavyJobs boot = 0 ∧ activeHeavyJobs srv' = 1
    ∧ activeHeavyJobs srv' ≠ activeHeavyJobs boot
    ∧ released srv' = [false].
Proof.
  intros req w. eexists _, _. split; [reflexivity|]. repeat split. discriminate.
Qed.

End PayloadFacts.

(** ** Strings *)

Module StringFacts.

Lemma app_nil b : "" +:+ b = b.
Proof. reflexivity. Qed.

Lemma app_cons c a b : String c a +:+ b = String c (a +:+ b).
Proof. reflexivity. Qed.

Lemma prefix_nil s : String.prefix "" s = true.
Proof. by destruct s. Qed.

Lemma prefix_cons c p s :
  String.prefix (String c p) s =
  match s with
  | EmptyString => false
  | String c' s' => if Ascii.ascii_dec c c' then String.prefix p s' else false
  end.
Proof. by destruct s. Qed.

Lemma includes_nil p : Js.includes "" p = String.prefix p "" || false.
Proof. reflexivity. Qed.

Lemma includes_cons c s p :
  Js.includes (String c s) p = String.prefix p (String c s) || Js.includes s p.
Proof. reflexivity. Qed.

Lemma toLowerCase_cons c s :
  Js.toLowerCase (String c s) = String (Js.lower c) (Js.toLowerCase s).
Proof. reflexivity. Qed.

Lemma prefix_spec p s : String.prefix p s = true ↔ ∃ b, s = p +:+ b.
Proof.
  revert s. induction p as [|c p IH]; intros s.
  - rewrite prefix_nil. split; [intros _; by exists s|done].
  - rewrite prefix_cons. destruct s as [|c' s].
    + split; [done|]. intros [b H]. discriminate H.
    + destruct (Ascii.ascii_dec c c') as [->|Hne].
      * rewrite IH. split; intros [b H]; exists b.
        -- by rewrite app_cons, H.
        -- rewrite app_cons in H. by injection H.
      * split; [done|]. intros [b H]. rewrite app_cons in H. injection H as H1 H2.
        congruence.
Qed.

Lemma includes_spec s p : Js.includes s p = true ↔ ∃ a b, s = a +:+ p +:+ b.
Proof.
  induction s as [|c s IH].
  - rewrite includes_nil, orb_false_r, prefix_spec. split.
    + intros [b H]. by exists "", b.
    + intros (a & b & H). destruct a as [|c a]; [by exists b|discriminate H].
  - rewrite includes_cons, orb_true_iff, prefix_spec, IH. split.
    + intros [[b H]|(a & b & H)].
      * by exists "", b.
      * exists (String c a), b. by rewrite app_cons, H.
    + intros (a & b & H). destruct a as [|c' a].
      * left. by exists b.
      * right. rewrite app_cons in H. injection H as _ H. by exists a, b.
Qed.

Lemma toLowerCase_app a b :
  Js.toLowerCase (a +:+ b) = Js.toLowerCase a +:+ Js.toLowerCase b.
Proof.
  induction a as [|c a IH]; [done|].
  by rewrite app_cons, !toLowerCase_cons, app_cons, IH.
Qed.

Lemma toLowerCase_split t x y :
  Js.toLowerCase t = x +:+ y →
  ∃ t1 t2, t = t1 +:+ t2 ∧ Js.toLowerCase t1 = x ∧ Js.toLowerCase t2 = y.
Proof.
  revert t. induction x as [|c x IH]; intros t H.
  - by exists "", t.
  - destruct t as [|c' t]; [discriminate H|].
    rewrite toLowerCase_cons, app_cons in H. injection H as Hc H.
    destruct (IH t H) as (t1 & t2 & -> & <- & <-).
    exists (String c' t1), t2. by rewrite toLowerCase_cons, Hc.
Qed.

(** Searching the lower-cased text is searching the text without regard
    to case. *)
Lemma includes_ci text marker :
  Js.includes (Js.toLowerCase text) marker = true ↔ Routes.contains_ci text marker.
Proof.
  rewrite includes_spec. unfold Routes.contains_ci. split.
  - intros (a' & b' & H).
    destruct (toLowerCase_split _ _ _ H) as (a & mb & -> & _ & H').
    destruct (toLowerCase_split _ _ _ H') as (m & b & -> & Hm & _).
    by exists a, m, b.
  - intros (a & m & b & -> & <-).
    exists (Js.toLowerCase a), (Js.toLowerCase b). by rewrite !toLowerCase_app.
Qed.

Lemma checkPasswordError_spec stderr stdout :
  Classifier.checkPasswordError stderr stdout = true ↔
  ∃ marker, marker ∈ Routes.markers ∧ Routes.contains_ci (stderr +:+ stdout) marker.
Proof.
  unfold Classifier.checkPasswordError, Routes.markers.
  rewrite !orb_true_iff, !includes_ci. split.
  - intros [[H|H]|H]; eexists; (split; [|exact H]); set_solver.
  - intros (marker & Hm & H).
    apply elem_of_cons in Hm as [->|Hm]; [by left; left|].
    apply elem_of_cons in Hm as [->|Hm]; [by left; right|].
    apply elem_of_cons in Hm as [->|Hm]; [by right|]. by apply elem_of_nil in Hm.
Qed.

End StringFacts.

(** ** Cleanup and file sizes *)

Module FsFacts.
Import Fs.

Lemma if_present_gone p act w : gone p w → if_present p act w = (Normal tt, w).
Proof.
  unfold gone, if_present. destruct p as [s|]; [|done].
  intros [->|H]; [done|]. destruct (Js.truthy (Some s)); [|done].
  unfold bind, existsSync. rewrite H.
  rewrite bool_decide_eq_false_2; [done|]. by intros [? ?].
Qed.

Lemma gone_mono p w w1 : gone p w → files w1 ⊆ files w → gone p w1.
Proof.
  unfold gone. destruct p as [s|]; [|done].
  intros [H|H] Hsub; [by left|right]. by eapply lookup_weaken_None.
Qed.

(** [if (p && fs.existsSync (p)) fs.unlinkSync (p)]: either nothing is
    left at [p] afterwards, or [unlinkSync] threw, changed nothing, and
    would throw again on the same directory tree. *)
Lemma unlink_cases p w :
  ∃ c w1, if_present p unlinkSync w = (c, w1)
    ∧ console w1 = console w ∧ files w1 ⊆ files w
    ∧ match c with
      | Normal _ => gone p w1
      | Throw e =>
          w1 = w ∧ ∀ w2, files w2 = files w → if_present p unlinkSync w2 = (Throw e, w2)
      end.
Proof.
  destruct p as [s|]; [|by exists (Normal tt), w].
  unfold if_present. destruct (Js.truthy (Some s)) eqn:Ht; cycle 1.
  { exists (Normal tt), w. split_and!; try done. by left. }
  unfold bind, existsSync, unlinkSync.
  destruct (files w !! s) as [[[] sz]|] eqn:E.
  - rewrite bool_decide_eq_true_2 by eauto. simpl. rewrite E. simpl.
    exists (Throw "EISDIR"), w. split_and!; try done.
    intros w2 H2. rewrite H2. rewrite bool_decide_eq_true_2 by eauto.
    simpl. by rewrite H2, E.
  - rewrite bool_decide_eq_true_2 by eauto. simpl. rewrite E. simpl.
    exists (Normal tt), (with_files (delete s) w). split_and!; try done.
    + apply delete_subseteq.
    + right. apply lookup_delete_eq.
  - rewrite bool_decide_eq_false_2 by (by intros [? ?]).
    exists (Normal tt), w. split_and!; try done. by right.
Qed.

Lemma under_refl p : under p p = true.
Proof. unfold under. by rewrite String.eqb_refl. Qed.

(** [if (p && fs.existsSync (p)) fs.rmSync (p, { recursive, force })] *)
Lemma rm_cases p w :
  ∃ w1, if_present p rmSync_rf w = (Normal tt, w1)
    ∧ console w1 = console w ∧ files w1 ⊆ files w ∧ gone p w1.
Proof.
  destruct p as [s|]; [|by exists w].
  unfold if_present. destruct (Js.truthy (Some s)) eqn:Ht; cycle 1.
  { exists w. split_and!; try done. by left. }
  unfold bind, existsSync, rmSync_rf.
  destruct (files w !! s) as [st|] eqn:E.
  - rewrite bool_decide_eq_true_2 by eauto.
    eexists. split; [reflexivity|]. simpl. split_and!; try done.
    + apply map_filter_subseteq.
    + right. apply map_lookup_filter_None. right. intros x _. simpl.
      by rewrite under_refl.
  - rewrite bool_decide_eq_false_2 by (by intros [? ?]).
    exists w. split_and!; try done. by right.
Qed.

Lemma snoc_neq {A} (l : list A) x : l ++ [x] ≠ l.
Proof. intros H. apply (f_equal length) in H. rewrite length_app in H. simpl in H. lia. Qed.

Lemma gone_files p w w1 : gone p w → files w1 = files w → gone p w1.
Proof. intros H E. apply (gone_mono p w); [done|by rewrite E]. Qed.

Lemma cleanup_gone a b c w :
  gone a w → gone b w → gone c w → cleanup a b c w = (Normal tt, w).
Proof.
  intros Ha Hb Hc. unfold cleanup, try_catch, bind.
  by rewrite (if_present_gone a), (if_present_gone b), (if_present_gone c).
Qed.

(** The two ways a call of [cleanup] can go: every step ran, and nothing
    is left at any of the three paths; or a step threw, the warning was
    logged, and a call on the same directory tree goes the same way
    without touching a file. *)
Lemma cleanup_cases a b c w :
  (∃ w1, cleanup a b c w = (Normal tt, w1)
     ∧ console w1 = console w ∧ files w1 ⊆ files w
     ∧ gone a w1 ∧ gone b w1 ∧ gone c w1)
  ∨ (∃ e fs1,
       cleanup a b c w
         = (Normal tt, {| files := fs1; console := console w ++ ["Cleanup warning: " +:+ e] |})
       ∧ fs1 ⊆ files w
       ∧ ∀ w2, files w2 = fs1 →
           cleanup a b c w2
             = (Normal tt, {| files := files w2;
                              console := console w2 ++ ["Cleanup warning: " +:+ e] |})).
Proof.
  unfold cleanup, try_catch, bind.
  destruct (unlink_cases a w) as (c1 & w1 & E1 & Hc1 & Hs1 & H1). rewrite E1.
  destruct c1 as [[]|e]; cycle 1.
  { destruct H1 as [-> Hagain]. right. exists e, (files w). split_and!; try done.
    intros w2 H2. by rewrite (Hagain w2 H2). }
  destruct (unlink_cases b w1) as (c2 & w2 & E2 & Hc2 & Hs2 & H2). rewrite E2.
  destruct c2 as [[]|e]; cycle 1.
  { destruct H2 as [-> Hagain]. right. exists e, (files w1). split_and!; try done.
    - unfold console_error. by rewrite Hc1.
    - intros w2 H2. rewrite (if_present_gone a _ w2) by (by eapply gone_files).
      by rewrite (Hagain w2 H2). }
  destruct (rm_cases c w2) as (w3 & E3 & Hc3 & Hs3 & H3). rewrite E3.
  left. exists w3. split_and!; try done.
  - congruence.
  - by repeat (etrans; [eassumption|]).
  - apply (gone_mono a w1); [done|]. by etrans.
  - by apply (gone_mono b w2).
Qed.

(** C9: [cleanup] completes normally for every combination of arguments
    and every state of the file system, whether the paths are present,
    absent or already deleted, and whether or not a step throws inside it;
    a second call with the same arguments completes normally too and
    changes no file.  When the first call logged no warning the second
    call changes nothing at all. *)
Theorem cleanup_total_idempotent (input output extraDir : option string) (w : world) :
  ∃ w1 w2,
    cleanup input output extraDir w = (Normal tt, w1)
    ∧ cleanup input output extraDir w1 = (Normal tt, w2)
    ∧ files w2 = files w1
    ∧ (console w1 = console w → w2 = w1).
Proof.
  destruct (cleanup_cases input output extraDir w)
    as [(w1 & E & Hc & _ & Ha & Hb & Hd)|(e & fs1 & E & _ & Hagain)].
  - exists w1, w1. split_and!; try done. by apply cleanup_gone.
  - eexists _, _. split; [exact E|]. split; [by apply Hagain|]. split; [done|].
    simpl. intros H. by apply snoc_neq in H.
Qed.

(** A job whose staged input is in place and whose output was never
    written, cleaned up from two exit paths; and a call that fails inside
    (the input path names a directory), repeated. *)
Lemma cleanup_total_idempotent_witness :
  let w := {| files := <["uploads/ab12" := Stats false 2048]>
                         (<["uploads" := Stats true 0]> ∅);
              console := [] |} in
  let w1 := {| files := <["uploads" := Stats true 0]> ∅; console := [] |} in
  cleanup (Some "uploads/ab12") (Some "uploads/output_ab12.pdf") None w = (Normal tt, w1)
  ∧ cleanup (Some "uploads/ab12") (Some "uploads/output_ab12.pdf") None w1 = (Normal tt, w1).
Proof.
  intros w w1.
  destruct (cleanup_total_idempotent (Some "uploads/ab12") (Some "uploads/output_ab12.pdf")
              None w) as (v1 & v2 & E1 & E2 & _ & Hsame).
  assert (v1 = w1) as ->.
  { assert (cleanup (Some "uploads/ab12") (Some "uploads/output_ab12.pdf") None w
            = (Normal tt, w1)) as E by (vm_compute; reflexivity).
    rewrite E in E1. by injection E1. }
  split; [exact E1|]. rewrite E2. f_equal. apply Hsame. reflexivity.
Defined.

End FsFacts.

(** ** Outcome classification in the [exec] callbacks *)

Module OutcomeFacts.
Import Express Fs Classifier Routes.

Lemma cleanup_normal a b c w : ∃ w1, cleanup a b c w = (Normal tt, w1).
Proof.
  destruct (FsFacts.cleanup_cases a b c w) as [(w1 & E & _)|(e & fs1 & E & _)];
    by eexists.
Qed.

(** A callback that cleans up and then sends [body] with status [code]. *)
Lemma answer_after_cleanup {A} a b c (r : res) (out : A) w :
  answer (bind (cleanup a b c) (λ _, ret (r, out)) w)
  = if sent r then Some (statusCode r, body r) else None.
Proof.
  unfold answer, bind, ret. by destruct (cleanup_normal a b c w) as [w1 ->].
Qed.

(** What the callbacks of the three routes that use [checkPasswordError]
    answer, case by case. *)
Lemma callback_marker toFixed2 rt j x r w :
  rt ≠ Unlock →
  checkPasswordError (stderr x) (stdout x) = true →
  answer (callback toFixed2 rt j x r w) = Some (401, "PASSWORD_REQUIRED").
Proof.
  intros Hrt Hm.
  destruct rt; try done; simpl; rewrite Hm; rewrite answer_after_cleanup; reflexivity.
Qed.

Lemma callback_error toFixed2 rt j x r w :
  rt ≠ Unlock →
  checkPasswordError (stderr x) (stdout x) = false →
  is_Some (error x) →
  answer (callback toFixed2 rt j x r w)
  = Some (500, match rt with
               | Convert => "Error converting file."
               | Compress => "Compression failed."
               | _ => "Processing failed."
               end).
Proof.
  intros Hrt Hm He. destruct rt; try done; simpl; rewrite Hm;
    rewrite bool_decide_eq_true_2 by done; rewrite answer_after_cleanup; reflexivity.
Qed.

Lemma getFileSizeMB_normal path w : ∃ v, getFileSizeMB path w = (Normal v, w).
Proof.
  unfold getFileSizeMB, try_catch, bind, statSync, ret.
  destruct (files w !! path); by eexists.
Qed.

Lemma callback_clean toFixed2 rt j x r w :
  rt ≠ Unlock →
  statusCode r = 200 →
  checkPasswordError (stderr x) (stdout x) = false →
  error x = None →
  ∃ o, answer (callback toFixed2 rt j x r w) = o
       ∧ fst <$> o ≠ Some 401 ∧ fst <$> o ≠ Some 500.
Proof.
  intros Hrt Hr Hm He. destruct rt; try done; simpl; rewrite Hm, He;
    rewrite bool_decide_eq_false_2 by (by intros [? ?]).
  - eexists. split; [reflexivity|]. simpl. rewrite Hr. split; discriminate.
  - unfold answer, bind, ret. destruct (getFileSizeMB_normal (outputPath j) w) as [v ->].
    eexists. split; [reflexivity|]. simpl. rewrite Hr. split; discriminate.
  - unfold bind at 1. destruct (readdirSync (outputDir j) w) as [[l|e] w1]; cycle 1.
    { exists None. split; [done|]. split; discriminate. }
    case_bool_decide.
    + rewrite answer_after_cleanup. eexists. split; [reflexivity|]. split; discriminate.
    + unfold answer, ret. simpl. eexists. split; [reflexivity|].
      rewrite Hr. destruct (sent r); split; discriminate.
Qed.

Lemma callback_unlock toFixed2 j x r w :
  answer (callback toFixed2 Unlock j x r w)
  = if bool_decide (is_Some (error x))
       || Js.includes (Js.toLowerCase (stderr x)) "password"
    then Some (401, "Incorrect Password or File Error")
    else Some (statusCode r, body r).
Proof.
  simpl. destruct (_ || _); [by rewrite answer_after_cleanup|done].
Qed.

(** C5 (as amended): [checkPasswordError] holds exactly when the
    diagnostic text, [stderr] followed by [stdout], contains one of the
    markers up to the case of its letters.  In the callbacks of convert,
    compress and extract that test comes first: when it holds the answer
    is 401 [PASSWORD_REQUIRED] whether or not the subprocess reported an
    error, and when it fails the answer is never 401.  The callback of
    unlock does not use it: it answers 401 exactly when the subprocess
    reported an error or [stderr] alone contains [password]. *)
Theorem credential_check_first (toFixed2 : Number.number → string)
    (rt : route) (j : job) (x : execResult) (r : res) (w : world) :
  statusCode r = 200 →
  (checkPasswordError (stderr x) (stdout x) = true ↔
     ∃ marker, marker ∈ markers ∧ contains_ci (stderr x +:+ stdout x) marker)
  ∧ (rt ≠ Unlock →
       (checkPasswordError (stderr x) (stdout x) = true →
          answer (callback toFixed2 rt j x r w) = Some (401, "PASSWORD_REQUIRED"))
       ∧ (checkPasswordError (stderr x) (stdout x) = false →
          fst <$> answer (callback toFixed2 rt j x r w) ≠ Some 401))
  ∧ (rt = Unlock →
       (is_Some (error x) ∨ contains_ci (stderr x) "password" →
          answer (callback toFixed2 rt j x r w)
          = Some (401, "Incorrect Password or File Error"))
       ∧ (¬ (is_Some (error x) ∨ contains_ci (stderr x) "password") →
          fst <$> answer (callback toFixed2 rt j x r w) = Some 200)).
Proof.
  intros Hr. split; [apply StringFacts.checkPasswordError_spec|]. split.
  - intros Hrt. split; [by apply callback_marker|]. intros Hm.
    destruct (error x) as [e|] eqn:He.
    + rewrite callback_error by (rewrite ?He; eauto). simpl. discriminate.
    + destruct (callback_clean toFixed2 rt j x r w) as (o & -> & H & _); done.
  - intros ->. rewrite callback_unlock, <- StringFacts.includes_ci. split.
    + intros [H| ->]; [|by rewrite orb_true_r].
      by rewrite (bool_decide_eq_true_2 (is_Some (error x))).
    + intros H. destruct (bool_decide (is_Some (error x))) eqn:E1.
      { exfalso. apply H. left. by apply bool_decide_eq_true in E1. }
      destruct (Js.includes _ _) eqn:E2; [exfalso; apply H; by right|].
      simpl. by rewrite Hr.
Qed.

(** Ghostscript exits with an error on an encrypted file; the marker
    decides. *)
Lemma credential_check_first_witness :
  let j := {| inputPath := "uploads/ab12"; outputPath := "uploads/output_ab12.pdf";
              outputDir := ""; mode := None; format := "";
              originalSize := Number.of_Z 0; gsSettings := "" |} in
  let x := {| error := Some "Command failed: gs"; stdout := "";
              stderr := "Error: This file requires a Password for access." |} in
  let w := {| files := ∅; console := [] |} in
  answer (callback (λ _, "") Convert j x createRes w) = Some (401, "PASSWORD_REQUIRED").
Proof.
  intros j x w.
  destruct (credential_check_first (λ _, "") Convert j x createRes w eq_refl)
    as (_ & Hroute & _).
  destruct (Hroute ltac:(discriminate)) as [Hmarker _].
  apply Hmarker. reflexivity.
Defined.

(** An unlock job whose subprocess exits cleanly and prints a marker on
    [stdout]: the file is sent for download. *)
Lemma unlock_ignores_marker_on_stdout :
  let j := {| inputPath := "uploads/ab12"; outputPath := "uploads/unlocked_ab12.pdf";
              outputDir := ""; mode := None; format := "";
              originalSize := Number.of_Z 0; gsSettings := "" |} in
  let x := {| error := None; stdout := "This file requires a password"; stderr := "" |} in
  let w := {| files := ∅; console := [] |} in
  checkPasswordError (stderr x) (stdout x) = true
  ∧ callback (λ _, "") Unlock j x createRes w
    = (Normal (download_ "uploads/unlocked_ab12.pdf" "unlocked.pdf" createRes, None), w)
  ∧ answer (callback (λ _, "") Unlock j x createRes w) = Some (200, "")
  ∧ fst <$> answer (callback (λ _, "") Unlock j x createRes w) ≠ Some 401.
Proof. repeat split. discriminate. Qed.

(** C7 (as amended): the callbacks of convert, compress and extract
    answer 500 exactly when the subprocess reported an error and
    [checkPasswordError] found no marker, each with its own message, and
    then never 401.  The callback of unlock never answers 500: whenever
    the subprocess reported an error it answers 401
    [Incorrect Password or File Error], marker or not. *)
Theorem tool_failure (toFixed2 : Number.number → string)
    (rt : route) (j : job) (x : execResult) (r : res) (w : world) :
  statusCode r = 200 →
  (rt ≠ Unlock →
     (fst <$> answer (callback toFixed2 rt j x r w) = Some 500 ↔
        is_Some (error x) ∧ checkPasswordError (stderr x) (stdout x) = false)
     ∧ (is_Some (error x) → checkPasswordError (stderr x) (stdout x) = false →
          answer (callback toFixed2 rt j x r w)
          = Some (500, match rt with
                       | Convert => "Error converting file."
                       | Compress => "Compression failed."
                       | _ => "Processing failed."
                       end)
          ∧ fst <$> answer (callback toFixed2 rt j x r w) ≠ Some 401))
  ∧ (rt = Unlock →
       fst <$> answer (callback toFixed2 rt j x r w) ≠ Some 500
       ∧ (is_Some (error x) →
            answer (callback toFixed2 rt j x r w)
            = Some (401, "Incorrect Password or File Error"))).
Proof.
  intros Hr. split.
  - intros Hrt. split.
    + split.
      * intros H. destruct (checkPasswordError (stderr x) (stdout x)) eqn:Hm.
        { rewrite callback_marker in H by done. discriminate H. }
        destruct (error x) as [e|] eqn:He; [by eauto|].
        destruct (callback_clean toFixed2 rt j x r w) as (o & E & _ & Ho); try done.
        by rewrite E in H.
      * intros [He Hm]. by rewrite callback_error.
    + intros He Hm. rewrite callback_error by done. split; [done|]. simpl. discriminate.
  - intros ->. rewrite callback_unlock. split.
    + destruct (_ || _); simpl; [discriminate|]. rewrite Hr. discriminate.
    + intros He. by rewrite (bool_decide_eq_true_2 (is_Some (error x))).
Qed.

Lemma tool_failure_witness :
  let j := {| inputPath := "uploads/ab12"; outputPath := "uploads/compressed_ab12.pdf";
              outputDir := ""; mode := Some "percentage"; format := "";
              originalSize := Number.of_Z 1; gsSettings := "/ebook" |} in
  let x := {| error := Some "Command failed: gs"; stdout := "";
              stderr := "Unrecoverable error, exit code 1" |} in
  let w := {| files := ∅; console := [] |} in
  answer (callback (λ _, "") Compress j x createRes w) = Some (500, "Compression failed.").
Proof.
  intros j x w.
  destruct (tool_failure (λ _, "") Compress j x createRes w eq_refl) as [Hroute _].
  destruct (Hroute ltac:(discriminate)) as [_ Hfail].
  apply Hfail; [by eexists|reflexivity].
Defined.

(** An unlock job whose subprocess fails with no marker anywhere in its
    output is answered 401, not 500. *)
Lemma unlock_failure_is_401 :
  let j := {| inputPath := "uploads/ab12"; outputPath := "uploads/unlocked_ab12.pdf";
              outputDir := ""; mode := None; format := "";
              originalSize := Number.of_Z 0; gsSettings := "" |} in
  let x := {| error := Some "Command failed: gs"; stdout := "";
              stderr := "Unrecoverable error, exit code 1" |} in
  let w := {| files := ∅; console := [] |} in
  is_Some (error x)
  ∧ checkPasswordError (stderr x) (stdout x) = false
  ∧ answer (callback (λ _, "") Unlock j x createRes w)
    = Some (401, "Incorrect Password or File Error")
  ∧ fst <$> answer (callback (λ _, "") Unlock j x createRes w) ≠ Some 500.
Proof. repeat split; [by eexists|discriminate]. Qed.

Lemma truthy_nonempty s : s ≠ "" → Js.truthy (Some s) = true.
Proof. intros H. unfold Js.truthy. by apply String.eqb_neq in H as ->. Qed.

Lemma readdir_empty dir w :
  readdirSync dir w = (Normal [], w) →
  ∃ st, files w !! dir = Some st ∧ isDirectory st = true.
Proof.
  unfold readdirSync. destruct (files w !! dir) as [[[] sz]|]; try done. by eexists.
Qed.

(** [cleanup (inputPath, null, outputDir)] when the input is a file or
    is gone and the directory is there. *)
Lemma cleanup_extract input dir w :
  input ≠ "" → dir ≠ "" →
  (∃ st, files w !! dir = Some st ∧ isDirectory st = true) →
  (∀ st, files w !! input = Some st → isDirectory st = false) →
  cleanup (Some input) None (Some dir) w
  = (Normal tt,
     with_files (λ fs, filter (λ kv, under dir kv.1 = false) (delete input fs)) w).
Proof.
  intros Hi Hd (st & Hst & Hdir) Hfile.
  assert (input ≠ dir) as Hne.
  { intros ->. specialize (Hfile _ Hst). congruence. }
  unfold cleanup, try_catch, bind, if_present.
  rewrite !truthy_nonempty by done. unfold bind, existsSync, unlinkSync, rmSync_rf, ret.
  destruct (files w !! input) as [st0|] eqn:E.
  - rewrite bool_decide_eq_true_2 by eauto. rewrite E, (Hfile st0) by done. simpl.
    rewrite lookup_delete_ne, Hst by done. rewrite bool_decide_eq_true_2 by eauto. done.
  - rewrite bool_decide_eq_false_2 by (by intros [? ?]).
    rewrite Hst. rewrite bool_decide_eq_true_2 by eauto.
    unfold with_files. by rewrite delete_id.
Qed.

(** C8: in the callback of [/extract], when the subprocess reported no
    error, no marker was found and the output directory is there and
    empty, the answer is 422 with the message of the mode (one for
    [images], one otherwise), no archive is started, and after the
    callback the staged input and the output directory with everything
    below it are gone, every other file is as it was and no cleanup
    warning was logged.  The staged input is a file or already gone, as
    multer leaves it. *)
Theorem empty_extraction (toFixed2 : Number.number → string)
    (j : job) (x : execResult) (r : res) (w : world) :
  error x = None →
  checkPasswordError (stderr x) (stdout x) = false →
  readdirSync (outputDir j) w = (Normal [], w) →
  inputPath j ≠ "" → outputDir j ≠ "" →
  (∀ st, files w !! inputPath j = Some st → isDirectory st = false) →
  ∃ w',
    callback toFixed2 Extract j x r w
      = (Normal (send (empty_message j) (status 422 r), None), w')
    ∧ answer (callback toFixed2 Extract j x r w) = Some (422, empty_message j)
    ∧ (mode j = Some "images" →
         empty_message j
         = "No embedded images found. Try " +:+ quote +:+ "Extract Pages" +:+ quote
           +:+ " instead.")
    ∧ (mode j ≠ Some "images" → empty_message j = "Could not render pages.")
    ∧ files w' !! inputPath j = None
    ∧ (∀ q, under (outputDir j) q = true → files w' !! q = None)
    ∧ (∀ q, q ≠ inputPath j → under (outputDir j) q = false →
            files w' !! q = files w !! q)
    ∧ console w' = console w.
Proof.
  intros He Hm Hdir Hi Hd Hfile.
  pose proof (cleanup_extract (inputPath j) (outputDir j) w Hi Hd
                (readdir_empty _ _ Hdir) Hfile) as Hclean.
  assert (callback toFixed2 Extract j x r w
          = (Normal (send (empty_message j) (status 422 r), None),
             with_files (λ fs, filter (λ kv, under (outputDir j) kv.1 = false)
                                 (delete (inputPath j) fs)) w)) as E.
  { simpl. rewrite Hm, He. rewrite bool_decide_eq_false_2 by (by intros [? ?]).
    unfold bind at 1. rewrite Hdir. simpl. unfold bind. by rewrite Hclean. }
  eexists. split; [exact E|]. rewrite E. split; [done|].
  split; [intros H; unfold empty_message; by rewrite bool_decide_eq_true_2|].
  split; [intros H; unfold empty_message; by rewrite bool_decide_eq_false_2|].
  simpl. split_and!; try done.
  - apply map_lookup_filter_None. left. apply lookup_delete_eq.
  - intros q Hq. apply map_lookup_filter_None. right. intros st _. simpl. by rewrite Hq.
  - intros q Hne Hq. rewrite map_lookup_filter, lookup_delete_ne by done.
    destruct (files w !! q); simpl; [|done]. by rewrite option_guard_True.
Qed.

(** A PDF without embedded images, extracted in [images] mode. *)
Lemma empty_extraction_witness :
  let j := {| inputPath := "uploads/ab12"; outputPath := "";
              outputDir := "uploads/extract_1700000000000"; mode := Some "images";
              format := "png"; originalSize := Number.of_Z 0; gsSettings := "" |} in
  let x := {| error := None; stdout := ""; stderr := "" |} in
  let w := {| files := <["uploads/ab12" := Stats false 2048]>
                         (<["uploads/extract_1700000000000" := Stats true 0]>
                            (<["uploads" := Stats true 0]> ∅));
              console := [] |} in
  answer (callback (λ _, "") Extract j x createRes w)
  = Some (422, "No embedded images found. Try " +:+ quote +:+ "Extract Pages" +:+ quote
               +:+ " instead.").
Proof.
  intros j x w.
  destruct (empty_extraction (λ _, "") j x createRes w) as (w' & _ & Hanswer & Hmsg & _).
  - reflexivity.
  - reflexivity.
  - vm_compute. reflexivity.
  - discriminate.
  - discriminate.
  - intros st H. vm_compute in H. injection H as <-. reflexivity.
  - rewrite Hanswer, Hmsg; reflexivity.
Defined.

End OutcomeFacts.

(** ** File sizes and the compression strategy *)

Module SizeFacts.
Import Express Fs Routes.

(** The literals are the doubles the engine reads: 0x3FC999999999999A and
    0x3FE3333333333333. *)
Example lit_0_2_bits : Number.lit_0_2 = S754_finite false 7205759403792794 (-55).
Proof. reflexivity. Qed.

Example lit_0_6_bits : Number.lit_0_6 = S754_finite false 5404319552844595 (-53).
Proof. reflexivity. Qed.

(** A 3 MB file and a target of 1 MB: a ratio of one third, [/ebook]. *)
Example strategy_third :
  strategy (Some "target") (Number.of_Z 1) (Number.of_Z 3) = "/ebook".
Proof. reflexivity. Qed.

(** A negative target against an original size of zero is [/screen]. *)
Example strategy_negative_target :
  strategy (Some "target") (Number.of_Z (-1)) (S754_zero false) = "/screen".
Proof. reflexivity. Qed.

(** With an original size of zero the ratio is infinite or not a number,
    and the strategy falls through to [/printer]. *)
Lemma strategy_target_zero (value : Number.number) :
  Number.isNaN value = true ∨ Number.leb (Number.of_Z 0) value = true →
  strategy (Some "target") value (S754_zero false) = "/printer".
Proof.
  unfold strategy. rewrite bool_decide_eq_true_2 by done.
  destruct value as [s|s|  |s m e]; intros [H|H]; try discriminate H; try reflexivity.
  - by destruct s.
  - by destruct s.
Qed.

(** C10: [getFileSizeMB] always completes normally and leaves the world
    alone; it returns the size divided by [1024 * 1024] when the path can
    be stat-ed and 0 when [statSync] throws.  So a [/compress] request in
    [target] mode whose staged input cannot be stat-ed gets as far as
    starting the subprocess, with an original size of 0 and, for a target
    value that is not a number or is not negative, with [/printer]. *)
Theorem getFileSizeMB_total (parseFloat : option string → Number.number)
    (p : string) (w : world) :
  (∃ v, getFileSizeMB p w = (Normal v, w))
  ∧ (∀ st, files w !! p = Some st →
       getFileSizeMB p w
       = (Normal (Number.div (Number.of_Z (size st)) (Number.of_Z (1024 * 1024))), w))
  ∧ (files w !! p = None → getFileSizeMB p w = (Normal (S754_zero false), w))
  ∧ (∀ req f now r,
       file req = Some f → path f = p → files w !! p = None →
       fields req !! "mode" = Some "target" →
       let value := parseFloat (fields req !! "value") in
       Number.isNaN value = true ∨ Number.leb (Number.of_Z 0) value = true →
       ∃ j, handler parseFloat Compress req now r w = (Normal (r, Some j), w)
            ∧ originalSize j = S754_zero false
            ∧ gsSettings j = "/printer").
Proof.
  assert (files w !! p = None → getFileSizeMB p w = (Normal (S754_zero false), w)) as Hnone.
  { intros H. unfold getFileSizeMB, try_catch, bind, statSync. by rewrite H. }
  split_and!; try done.
  - unfold getFileSizeMB, try_catch, bind, statSync, ret.
    destruct (files w !! p); by eexists.
  - intros st H. unfold getFileSizeMB, try_catch, bind, statSync. by rewrite H.
  - intros req f now r Hf Hp Hfile Hmode value Hvalue.
    unfold handler. rewrite Hf, Hp. unfold bind at 1. rewrite (Hnone Hfile).
    eexists. split; [reflexivity|]. simpl. split; [done|].
    rewrite Hmode. by apply strategy_target_zero.
Qed.

(** The staged file has vanished; the client asks for a target of 2.5 MB,
    and then for a target that does not parse. *)
Lemma getFileSizeMB_total_witness :
  let w := {| files := ∅; console := [] |} in
  let req := {| ip := Some "20.0.0.1"; remoteAddress := None;
                file := Some (Upload "uploads/ab12" "ab12");
                fields := <["mode" := "target"]> (<["value" := "2.5"]> ∅) |} in
  let two_and_a_half := Number.div (Number.of_Z 5) (Number.of_Z 2) in
  (∃ j, handler (λ _, two_and_a_half) Compress req 0 createRes w
        = (Normal (createRes, Some j), w) ∧ gsSettings j = "/printer")
  ∧ (∃ j, handler (λ _, S754_nan) Compress req 0 createRes w
          = (Normal (createRes, Some j), w) ∧ gsSettings j = "/printer").
Proof.
  intros w req two_and_a_half. split.
  - destruct (getFileSizeMB_total (λ _, two_and_a_half) "uploads/ab12" w)
      as (_ & _ & _ & H).
    destruct (H req (Upload "uploads/ab12" "ab12") 0 createRes eq_refl eq_refl eq_refl
                eq_refl) as (j & E & _ & Hgs).
    + right. vm_compute. reflexivity.
    + by exists j.
  - destruct (getFileSizeMB_total (λ _, S754_nan) "uploads/ab12" w) as (_ & _ & _ & H).
    destruct (H req (Upload "uploads/ab12" "ab12") 0 createRes eq_refl eq_refl eq_refl
                eq_refl) as (j & E & _ & Hgs).
    + left. reflexivity.
    + by exists j.
Defined.

End SizeFacts.

(** ** More on the limiter *)

Module LimiterMore.
Import Express Throttle Runs Tally LimiterFacts.

Lemma clearExpired_Some (st : gmap string bucket) t W k b :
  clearExpired st t W !! k = Some b ↔ st !! k = Some b ∧ t - windowStart b < W.
Proof.
  rewrite clearExpired_lookup. unfold expired.
  destruct (st !! k) as [b'|]; [|by split; [|intros []]].
  case_bool_decide as Hx; (split; [intros [= ->]|intros [[= ->] Hb]]);
    try done; try lia. split; [done|lia].
Qed.

(** X1: [clearExpired] keeps exactly the entries whose window is still open,
    as they are; sweeping twice is sweeping once, and a sweep at a later
    time makes an earlier one superfluous. *)
Theorem clearExpired_sweeps (store : gmap string bucket) (now now' W : Z) :
  (∀ k b, clearExpired store now W !! k = Some b ↔
          store !! k = Some b ∧ now - windowStart b < W)
  ∧ clearExpired store now W ⊆ store
  ∧ clearExpired (clearExpired store now W) now W = clearExpired store now W
  ∧ (now ≤ now' →
       clearExpired (clearExpired store now W) now' W = clearExpired store now' W).
Proof.
  split_and!; [intros k b; apply clearExpired_Some|apply map_filter_subseteq|..].
  - apply map_eq. intros k. apply option_eq. intros b. rewrite !clearExpired_Some.
    split; [by intros [[H1 H2] _]|by intros [H1 H2]].
  - intros Hle. apply map_eq. intros k. apply option_eq. intros b.
    rewrite !clearExpired_Some.
    split; [by intros [[H1 _] H2]|]. intros [H1 H2]. split; [split; [done|lia]|done].
Qed.

Lemma clearExpired_sweeps_witness :
  clearExpired (clearExpired (<["a" := Bucket 3 0]> (<["b" := Bucket 1 500]> ∅)) 1000 1000)
               1200 1000
  = <["b" := Bucket 1 500]> ∅.
Proof.
  destruct (clearExpired_sweeps (<["a" := Bucket 3 0]> (<["b" := Bucket 1 500]> ∅))
              1000 1200 1000) as (_ & _ & _ & H).
  rewrite H by lia. reflexivity.
Defined.

(** X2: The decision for a request and the new entry of its client depend on
    that client's entry only; the entries of the other clients are never
    changed, only dropped when their window has elapsed. *)
Theorem limiter_local (lim : limiter) (req : request) (now : Z) (r : res)
    (store store' : gmap string bucket) :
  (store !! getIp req = store' !! getIp req →
     (createIpRateLimiter lim req now r store).1
     = (createIpRateLimiter lim req now r store').1
     ∧ (createIpRateLimiter lim req now r store).2 !! getIp req
       = (createIpRateLimiter lim req now r store').2 !! getIp req)
  ∧ (∀ k, k ≠ getIp req →
       (createIpRateLimiter lim req now r store).2 !! k
       = clearExpired store now (windowMs lim) !! k)
  ∧ is_Some ((createIpRateLimiter lim req now r store).2 !! getIp req).
Proof.
  split_and!.
  - intros H.
    assert (clearExpired store now (windowMs lim) !! getIp req
            = clearExpired store' now (windowMs lim) !! getIp req) as E.
    { by rewrite !clearExpired_lookup, H. }
    unfold createIpRateLimiter. rewrite <- E.
    destruct (clearExpired store now (windowMs lim) !! getIp req) as [b|]; simpl;
      [|by rewrite !lookup_insert_eq].
    destruct (expired now (windowMs lim) b); simpl; [by rewrite !lookup_insert_eq|].
    case_bool_decide; simpl; by rewrite !lookup_insert_eq.
  - intros k Hk. destruct (limiter_store lim req now r store) as [b ->].
    by rewrite lookup_insert_ne.
  - destruct (limiter_store lim req now r store) as [b ->]. rewrite lookup_insert_eq. eauto.
Qed.

Lemma limiter_local_witness :
  let lim := {| maxRequests := 1; windowMs := 1000; message := "slow down" |} in
  let req := {| ip := Some "a"; remoteAddress := None; file := None; fields := ∅ |} in
  (createIpRateLimiter lim req 10 createRes (<["a" := Bucket 1 0]> ∅)).1
  = (createIpRateLimiter lim req 10 createRes
       (<["b" := Bucket 7 5]> (<["a" := Bucket 1 0]> ∅))).1.
Proof.
  intros lim req.
  destruct (limiter_local lim req 10 createRes (<["a" := Bucket 1 0]> ∅)
              (<["b" := Bucket 7 5]> (<["a" := Bucket 1 0]> ∅))) as (H & _).
  apply H. reflexivity.
Defined.

(** Where the entries of the store after a call come from. *)
Lemma limiter_entries lim req now r store k b :
  (createIpRateLimiter lim req now r store).2 !! k = Some b →
  (k = getIp req ∧
     (b = Bucket 1 now
      ∨ ∃ b0, store !! k = Some b0 ∧ now - windowStart b0 < windowMs lim
              ∧ b = Bucket (count b0 + 1) (windowStart b0)))
  ∨ (k ≠ getIp req ∧ store !! k = Some b ∧ now - windowStart b < windowMs lim).
Proof.
  destruct (decide (k = getIp req)) as [->|Hk].
  - intros H. left. split; [done|].
    destruct (store !! getIp req) as [b0|] eqn:E.
    + destruct (decide (now - windowStart b0 < windowMs lim)) as [Hin|Hout].
      * right. exists b0. split; [done|]. split; [done|].
        rewrite (limiter_counts lim req now r store b0 E Hin) in H.
        case_bool_decide; simpl in H; rewrite lookup_insert_eq in H; by injection H.
      * left. rewrite limiter_opens_window in H by (right; exists b0; split; [done|lia]).
        simpl in H. rewrite lookup_insert_eq in H. by injection H.
    + left. rewrite limiter_opens_window in H by (by left).
      simpl in H. rewrite lookup_insert_eq in H. by injection H.
  - intros H. right. split; [done|].
    destruct (limiter_store lim req now r store) as [b1 E]. rewrite E in H.
    rewrite lookup_insert_ne in H by done.
    by apply clearExpired_Some in H.
Qed.

Lemma served_snoc lim reqs rq store :
  served lim (reqs ++ [rq]) store
  = (createIpRateLimiter lim rq.1 rq.2 createRes (served lim reqs store)).2.
Proof. unfold served. by rewrite foldl_snoc. Qed.

(** X3: Whatever requests a limiter has served since the server started, its
    store holds only entries of clients that asked, each with a count of
    at least 1 and with the time of one of that client's requests as its
    window start; and, for a positive window, no entry whose window had
    elapsed when the last request was served. *)
Theorem store_invariant (lim : limiter) (reqs : list (request * Z)) (k : string)
    (b : bucket) :
  served lim reqs ∅ !! k = Some b →
  1 ≤ count b
  ∧ (∃ rq, rq ∈ reqs ∧ getIp rq.1 = k ∧ rq.2 = windowStart b)
  ∧ (0 < windowMs lim →
       ∀ lst, last reqs = Some lst → lst.2 - windowStart b < windowMs lim).
Proof.
  revert k b. induction reqs as [|rq reqs IH] using rev_ind; intros k b H; [done|].
  rewrite served_snoc in H. apply limiter_entries in H.
  destruct H as [[-> [->|(b0 & H0 & Hin & ->)]]|(Hk & H0 & Hin)].
  - split; [simpl; lia|]. split.
    + exists rq. split; [|done]. apply elem_of_app. right. by apply list_elem_of_singleton.
    + intros HW lst Hl. rewrite last_snoc in Hl. injection Hl as <-. simpl. lia.
  - destruct (IH _ _ H0) as (Hc & (rq0 & Hrq0 & Hip & Ht) & _).
    split; [simpl; lia|]. split.
    + exists rq0. split; [|done]. apply elem_of_app. by left.
    + intros HW lst Hl. rewrite last_snoc in Hl. by injection Hl as <-.
  - destruct (IH _ _ H0) as (Hc & (rq0 & Hrq0 & Hip & Ht) & _).
    split; [done|]. split.
    + exists rq0. split; [|done]. apply elem_of_app. by left.
    + intros HW lst Hl. rewrite last_snoc in Hl. by injection Hl as <-.
Qed.

Lemma store_invariant_witness :
  let lim := {| maxRequests := 2; windowMs := 1000; message := "slow down" |} in
  let a := {| ip := Some "a"; remoteAddress := None; file := None; fields := ∅ |} in
  let b := {| ip := Some "b"; remoteAddress := None; file := None; fields := ∅ |} in
  served lim [(a, 0); (b, 400); (a, 500); (b, 1200)] ∅ !! "a" = None
  ∧ ∃ e, served lim [(a, 0); (b, 400); (a, 500); (b, 1200)] ∅ !! "b" = Some e
         ∧ 1 ≤ count e ∧ 1200 - windowStart e < 1000.
Proof.
  intros lim a b. split; [reflexivity|].
  exists (Bucket 2 400). split; [reflexivity|].
  destruct (store_invariant lim [(a, 0); (b, 400); (a, 500); (b, 1200)] "b" (Bucket 2 400)
              eq_refl) as (Hc & _ & Hopen).
  split; [exact Hc|]. apply (Hopen ltac:(simpl; lia) (b, 1200)). reflexivity.
Defined.

Lemma let_through_cons ip rq d reqs ds :
  let_through ip (rq :: reqs) (d :: ds)
  = ((if bool_decide (getIp rq.1 = ip ∧ d = true) then 1 else 0)
     + let_through ip reqs ds)%nat.
Proof.
  unfold let_through. simpl. rewrite filter_cons. simpl.
  case_decide; case_bool_decide; done.
Qed.

Lemma serve_cons lim rq t reqs store :
  serve lim ((rq, t) :: reqs) store
  = (createIpRateLimiter lim rq t createRes store).1.1
    :: serve lim reqs (createIpRateLimiter lim rq t createRes store).2.
Proof. simpl. by destruct (createIpRateLimiter lim rq t createRes store) as [[? ?] ?]. Qed.

(** While the client's window stays open, what is let through is what is
    left of the budget. *)
Lemma let_through_in_window lim ip t0 reqs :
  ∀ store k,
    store !! ip = Some (Bucket k t0) →
    Forall (λ rq, rq.2 - t0 < windowMs lim) reqs →
    Z.of_nat (let_through ip reqs (serve lim reqs store))
    = Z.min (Z.of_nat (hits ip reqs)) (Z.max (maxRequests lim - k) 0).
Proof.
  induction reqs as [|[rq t] reqs IH]; intros store k Hk Hall.
  - unfold let_through, hits. simpl. lia.
  - apply Forall_cons in Hall as [Hhd Hall]. simpl in Hhd.
    destruct (limiter_in_window lim rq t createRes store ip k t0 Hk Hhd) as [Hst Hdec].
    rewrite serve_cons, let_through_cons, hits_cons. simpl.
    rewrite Nat2Z.inj_add, (IH _ _ Hst Hall).
    destruct (decide (getIp rq = ip)) as [Hip|Hip].
    + rewrite (Hdec Hip). rewrite (bool_decide_eq_true_2 (getIp rq = ip)) by done.
      case_bool_decide as HN.
      * rewrite bool_decide_eq_true_2 by done. lia.
      * rewrite bool_decide_eq_false_2 by (by intros [_ ?]). lia.
    + rewrite (bool_decide_eq_false_2 (getIp rq = ip)) by done.
      rewrite bool_decide_eq_false_2 by (by intros [? _]). lia.
Qed.

(** X4: However many requests a client sends inside one window, and whatever
    other clients do meanwhile, the limiter lets through the first
    [max (N, 1)] of them and no more. *)
Theorem window_budget (lim : limiter) (req : request) (now : Z)
    (store : gmap string bucket) (trace : list (request * Z)) :
  opens lim req now store →
  Forall (λ rq, rq.2 - now < windowMs lim) trace →
  let all := (req, now) :: trace in
  Z.of_nat (let_through (getIp req) all (serve lim all store))
  = Z.min (Z.of_nat (hits (getIp req) all)) (Z.max (maxRequests lim) 1).
Proof.
  intros Ho Hall all. unfold all.
  rewrite serve_cons, let_through_cons, hits_cons.
  rewrite (limiter_opens_window lim req now createRes store Ho). simpl.
  rewrite (bool_decide_eq_true_2 (getIp req = getIp req)) by done.
  rewrite bool_decide_eq_true_2 by done.
  rewrite !Nat2Z.inj_add.
  rewrite (let_through_in_window lim (getIp req) now trace _ 1);
    [lia|apply lookup_insert_eq|done].
Qed.

Lemma window_budget_witness :
  let lim := {| maxRequests := 2; windowMs := 1000; message := "slow down" |} in
  let a := {| ip := Some "a"; remoteAddress := None; file := None; fields := ∅ |} in
  let b := {| ip := Some "b"; remoteAddress := None; file := None; fields := ∅ |} in
  let all := [(a, 0); (a, 1); (b, 2); (a, 3); (a, 4)] in
  Z.of_nat (let_through "a" all (serve lim all ∅)) = 2.
Proof.
  intros lim a b all.
  rewrite (window_budget lim a 0 ∅ [(a, 1); (b, 2); (a, 3); (a, 4)]).
  - reflexivity.
  - left. reflexivity.
  - repeat (apply List.Forall_cons; [simpl; lia|]). apply List.Forall_nil.
Defined.

Lemma hits_take_mono ip (reqs : list (request * Z)) a b :
  (a ≤ b)%nat → (hits ip (take a reqs) ≤ hits ip (take b reqs))%nat.
Proof.
  intros Hab. rewrite <- (take_drop a (take b reqs)), take_take.
  replace (a `min` b)%nat with a by lia. rewrite hits_app. lia.
Qed.

(** X5: Once a client has been denied, every later request it sends while the
    same window is open is denied too: a denied request still counts. *)
Theorem denied_stays_denied (lim : limiter) (req : request) (now : Z)
    (store : gmap string bucket) (trace : list (request * Z))
    (i i' : nat) (rq rq' : request) (t t' : Z) :
  opens lim req now store →
  Forall (λ rq, rq.2 - now < windowMs lim) trace →
  let all := (req, now) :: trace in
  (i ≤ i')%nat →
  all !! i = Some (rq, t) → all !! i' = Some (rq', t') →
  getIp rq = getIp req → getIp rq' = getIp req →
  serve lim all store !! i = Some false →
  serve lim all store !! i' = Some false.
Proof.
  intros Ho Hall all Hle Hi Hi' Hip Hip'. unfold all in *.
  rewrite serve_cons, (limiter_opens_window lim req now createRes store Ho). simpl.
  destruct i as [|i]; [done|]. destruct i' as [|i']; [lia|].
  simpl in Hi, Hi'. rewrite !lookup_cons. simpl lookup.
  rewrite (serve_in_window lim (getIp req) now trace _ 1 i rq t);
    [|apply lookup_insert_eq|done..].
  rewrite (serve_in_window lim (getIp req) now trace _ 1 i' rq' t');
    [|apply lookup_insert_eq|done..].
  intros [= H]. f_equal. apply bool_decide_eq_false in H. apply bool_decide_eq_false.
  pose proof (hits_take_mono (getIp req) trace (S i) (S i')). lia.
Qed.

Lemma denied_stays_denied_witness :
  let lim := {| maxRequests := 1; windowMs := 1000; message := "slow down" |} in
  let a := {| ip := Some "a"; remoteAddress := None; file := None; fields := ∅ |} in
  serve lim [(a, 0); (a, 10); (a, 999)] ∅ !! 2%nat = Some false.
Proof.
  intros lim a.
  apply (denied_stays_denied lim a 0 ∅ [(a, 10); (a, 999)] 1 2 a a 10 999).
  - left. reflexivity.
  - repeat (apply List.Forall_cons; [simpl; lia|]). apply List.Forall_nil.
  - lia.
  - reflexivity.
  - reflexivity.
  - reflexivity.
  - reflexivity.
  - reflexivity.
Defined.

Lemma ceil_div_mono a b : a ≤ b → Js.ceil_div a 1000 ≤ Js.ceil_div b 1000.
Proof.
  intros H. unfold Js.ceil_div.
  pose proof (Z.div_le_mono (- b) (- a) 1000 ltac:(lia) ltac:(lia)). lia.
Qed.

(** X6: On a clock that does not run backwards, the [Retry-After] of a denial
    is the rounded-up number of seconds left in the window; it lies
    between 1 and the window length in seconds, so the floor of 1 the
    code applies never changes it. *)
Theorem retry_after_bounds (lim : limiter) (req : request) (now : Z) (r : res)
    (store : gmap string bucket) (b : bucket) :
  store !! getIp req = Some b →
  windowStart b ≤ now →
  (createIpRateLimiter lim req now r store).1.1 = false →
  let left_ := Js.ceil_div (windowMs lim - (now - windowStart b)) 1000 in
  header "Retry-After" (createIpRateLimiter lim req now r store).1.2
  = Some (Js.String_ left_)
  ∧ 1 ≤ left_ ≤ Js.ceil_div (windowMs lim) 1000.
Proof.
  intros Hb Hclock Hdenied left_.
  destruct (decide (now - windowStart b < windowMs lim)) as [Hin|Hout]; cycle 1.
  { rewrite limiter_opens_window in Hdenied; [done|].
    right. exists b. split; [done|lia]. }
  assert (1 ≤ left_ ≤ Js.ceil_div (windowMs lim) 1000) as Hbounds.
  { split; [|apply ceil_div_mono; lia].
    pose proof (proj1 (ceil_div_spec (windowMs lim - (now - windowStart b)) left_) eq_refl).
    lia. }
  split; [|done].
  rewrite (limiter_counts lim req now r store b Hb Hin) in *.
  case_bool_decide; [|done]. simpl. rewrite Z.max_l by (fold left_; lia). reflexivity.
Qed.

Lemma retry_after_bounds_witness :
  let lim := {| maxRequests := 1; windowMs := 60000; message := "slow down" |} in
  let a := {| ip := Some "a"; remoteAddress := None; file := None; fields := ∅ |} in
  header "Retry-After"
    (createIpRateLimiter lim a 59999 createRes (<["a" := Bucket 1 0]> ∅)).1.2 = Some "1".
Proof.
  intros lim a.
  destruct (retry_after_bounds lim a 59999 createRes (<["a" := Bucket 1 0]> ∅) (Bucket 1 0))
    as [H _]; [reflexivity|simpl; lia|reflexivity|exact H].
Defined.

(** X7: The limiter looks at nothing of a request but the client identity
    [getIp] gives it, which is never the empty string: requests that carry
    neither [req.ip] nor a socket address are all counted against the one
    client [unknown]. *)
Theorem limiter_by_identity (lim : limiter) (req req' : request) (now : Z) (r : res)
    (store : gmap string bucket) :
  getIp req ≠ ""
  ∧ (getIp req = getIp req' →
       createIpRateLimiter lim req now r store = createIpRateLimiter lim req' now r store)
  ∧ (Js.truthy (ip req) = false → Js.truthy (remoteAddress req) = false →
       getIp req = "unknown")
  ∧ (Js.truthy (ip req) = true → ip req = Some (getIp req))
  ∧ (Js.truthy (ip req) = false → Js.truthy (remoteAddress req) = true →
       remoteAddress req = Some (getIp req)).
Proof.
  unfold getIp, Js.or_else. split_and!.
  - destruct (Js.truthy (ip req)) eqn:E1.
    + unfold Js.truthy in E1. destruct (ip req) as [s|]; [|done]. simpl.
      intros ->. done.
    + destruct (Js.truthy (remoteAddress req)) eqn:E2; [|done].
      unfold Js.truthy in E2. destruct (remoteAddress req) as [s|]; [|done]. simpl.
      intros ->. done.
  - intros H. unfold createIpRateLimiter, getIp, Js.or_else. by rewrite H.
  - by intros -> ->.
  - intros H. rewrite H. unfold Js.truthy in H. by destruct (ip req).
  - intros H1 H2. rewrite H1, H2. unfold Js.truthy in H2. by destruct (remoteAddress req).
Qed.

(** Two requests without any address share one budget. *)
Lemma limiter_by_identity_witness :
  let lim := {| maxRequests := 1; windowMs := 1000; message := "slow down" |} in
  let x := {| ip := None; remoteAddress := None; file := None; fields := ∅ |} in
  let y := {| ip := Some ""; remoteAddress := Some ""; file := None; fields := ∅ |} in
  serve lim [(x, 0); (y, 1)] ∅ = [true; false]
  ∧ createIpRateLimiter lim x 5 createRes ∅ = createIpRateLimiter lim y 5 createRes ∅.
Proof.
  intros lim x y. split; [reflexivity|].
  destruct (limiter_by_identity lim x y 5 createRes ∅) as (_ & H & _).
  apply H. reflexivity.
Defined.

End LimiterMore.

(** ** More on the gate and the middleware stack *)

Module GateMore.
Import Express Throttle Runs Routes GateFacts PayloadFacts.

Lemma reachable_induction cfg (P : server → Prop) :
  P boot →
  (∀ srv e, reachable cfg srv → P srv → P (step cfg srv e)) →
  ∀ srv, reachable cfg srv → P srv.
Proof.
  intros Hboot Hstep srv [es ->]. induction es as [|e es IH] using rev_ind; [done|].
  unfold steps in *. rewrite foldl_snoc. apply Hstep; [by exists es|done].
Qed.

(** X8: At no time do more jobs hold a slot than the cap allows; with a cap of
    zero or less no job is ever admitted. *)
Theorem slots_bounded (cfg : config) (srv : server) :
  reachable cfg srv →
  Z.of_nat (live srv) ≤ Z.max (MAX_CONCURRENT_JOBS cfg) 0
  ∧ (MAX_CONCURRENT_JOBS cfg ≤ 0 →
       released srv = [] ∧ activeHeavyJobs srv = 0
       ∧ ∀ req now r, (limitConcurrentHeavyJobs cfg req now r srv).1.1 = false).
Proof.
  intros Hreach. split.
  - destruct (reachable_accounted cfg srv Hreach) as [Hlive Hle]. lia.
  - intros Hcap.
    assert (released srv = [] ∧ activeHeavyJobs srv = 0) as [Hr Ha].
    { revert srv Hreach. apply reachable_induction; [done|].
      intros srv e _ [Hr Ha]. destruct e as [req now|req now|req now|j|j]; simpl.
      - destruct (global_reply cfg req now createRes srv) as (H1 & H2 & _).
        simpl in H1, H2. by rewrite H1, H2.
      - destruct (heavy_reply cfg req now createRes srv) as (H1 & H2 & _).
        simpl in H1, H2. by rewrite H1, H2.
      - by rewrite gate_denies by lia.
      - unfold release. by rewrite Hr.
      - unfold release. by rewrite Hr. }
    split; [done|]. split; [done|]. intros req now r. by rewrite gate_denies by lia.
Qed.

Lemma slots_bounded_witness :
  let cfg := {| WINDOW_MS := 60000; MAX_REQUESTS_PER_WINDOW := 3;
                HEAVY_MAX_REQUESTS_PER_WINDOW := 2; MAX_CONCURRENT_JOBS := 0 |} in
  let req := {| ip := Some "30.0.0.1"; remoteAddress := None; file := None; fields := ∅ |} in
  (limitConcurrentHeavyJobs cfg req 9 createRes
     (steps cfg [Gate req 0; Finish 0; Gate req 1] boot)).1.1 = false.
Proof.
  intros cfg req.
  destruct (slots_bounded cfg (steps cfg [Gate req 0; Finish 0; Gate req 1] boot))
    as [_ H]; [by eexists|].
  apply H. simpl. lia.
Defined.

Lemma limiter_handlers lim req now r store :
  handlers (createIpRateLimiter lim req now r store).1.2 = handlers r.
Proof.
  unfold createIpRateLimiter.
  destruct (clearExpired store now (windowMs lim) !! getIp req) as [b|]; [|done].
  destruct (expired now (windowMs lim) b); [done|]. simpl. by case_bool_decide.
Qed.

Lemma global_handlers cfg req now r srv :
  handlers (globalRateLimit cfg req now r srv).1.2 = handlers r.
Proof.
  unfold globalRateLimit.
  pose proof (limiter_handlers (globalLimiter cfg) req now r (globalIpHits srv)) as H.
  by destruct (createIpRateLimiter _ _ _ _ _) as [[? ?] ?].
Qed.

Lemma heavy_handlers cfg req now r srv :
  handlers (heavyRouteRateLimit cfg req now r srv).1.2 = handlers r.
Proof.
  unfold heavyRouteRateLimit.
  pose proof (limiter_handlers (heavyLimiter cfg) req now r (heavyIpHits srv)) as H.
  by destruct (createIpRateLimiter _ _ _ _ _) as [[? ?] ?].
Qed.

Lemma global_stores cfg req now r srv :
  heavyIpHits (globalRateLimit cfg req now r srv).2 = heavyIpHits srv.
Proof.
  unfold globalRateLimit. by destruct (createIpRateLimiter _ _ _ _ _) as [[? ?] ?].
Qed.

Lemma heavy_stores cfg req now r srv :
  globalIpHits (heavyRouteRateLimit cfg req now r srv).2 = globalIpHits srv.
Proof.
  unfold heavyRouteRateLimit. by destruct (createIpRateLimiter _ _ _ _ _) as [[? ?] ?].
Qed.

(** What the stack of a heavy route makes of a request, in terms of its
    three gates taken one after the other. *)
Lemma stack_cases cfg req now r srv :
  let g := globalRateLimit cfg req now r srv in
  let h := heavyRouteRateLimit cfg req now g.1.2 g.2 in
  let c := limitConcurrentHeavyJobs cfg req now h.1.2 h.2 in
  chain (stack cfg) req now r srv
  = if g.1.1 then if h.1.1 then if c.1.1 then (true, c.1.2, c.2) else (false, c.1.2, c.2)
                  else (false, h.1.2, h.2)
    else (false, g.1.2, g.2).
Proof.
  intros g h c. unfold stack. rewrite chain_cons. fold g.
  destruct (g.1.1); [|done]. rewrite chain_cons. fold h.
  destruct (h.1.1); [|done]. rewrite chain_cons. fold c.
  destruct (c.1.1); [|done]. rewrite chain_cons. simpl. by destruct c as [[? ?] ?].
Qed.

(** X9: The order of the stack: the global budget is charged for every
    request; the heavy budget only for requests the global limiter let
    through; and the gate is asked only when both limiters let the request
    through, so a request reaches its handler exactly when both do and
    the counter is below the cap.  A request the gate turns away has used
    up one unit of both budgets. *)
Theorem stack_order (cfg : config) (req : request) (now : Z) (r : res) (srv : server) :
  let g := globalRateLimit cfg req now r srv in
  let h := heavyRouteRateLimit cfg req now g.1.2 g.2 in
  let result := chain (stack cfg) req now r srv in
  globalIpHits result.2 = globalIpHits g.2
  ∧ (g.1.1 = false →
       heavyIpHits result.2 = heavyIpHits srv
       ∧ activeHeavyJobs result.2 = activeHeavyJobs srv ∧ released result.2 = released srv)
  ∧ (g.1.1 = true → heavyIpHits result.2 = heavyIpHits h.2)
  ∧ (h.1.1 = false →
       activeHeavyJobs result.2 = activeHeavyJobs srv ∧ released result.2 = released srv)
  ∧ (result.1.1 = true ↔
       g.1.1 = true ∧ h.1.1 = true ∧ activeHeavyJobs srv < MAX_CONCURRENT_JOBS cfg).
Proof.
  intros g h result. unfold result. rewrite stack_cases. fold g h.
  destruct (global_reply cfg req now r srv) as (Ga & Gr & _). fold g in Ga, Gr.
  destruct (heavy_reply cfg req now g.1.2 g.2) as (Ha & Hr & _). fold h in Ha, Hr.
  pose proof (global_stores cfg req now r srv) as Gs. fold g in Gs.
  pose proof (heavy_stores cfg req now g.1.2 g.2) as Hs. fold h in Hs.
  set (c := limitConcurrentHeavyJobs cfg req now h.1.2 h.2).
  assert (globalIpHits c.2 = globalIpHits h.2 ∧ heavyIpHits c.2 = heavyIpHits h.2
          ∧ (c.1.1 = true ↔ activeHeavyJobs srv < MAX_CONCURRENT_JOBS cfg)) as (Cg & Ch & Cd).
  { unfold c. destruct (decide (activeHeavyJobs h.2 < MAX_CONCURRENT_JOBS cfg)).
    - rewrite gate_admits by done. simpl. split_and!; try done. split; [lia|done].
    - rewrite gate_denies by lia. simpl. split_and!; try done. split; [done|lia]. }
  destruct (g.1.1) eqn:Eg; destruct (h.1.1) eqn:Eh; destruct (c.1.1) eqn:Ec; simpl;
    split_and!; try done; try congruence; try (intros _; split; congruence);
    try (split; [done|]; intros (_ & _ & H); by apply Cd in H);
    try (split; [done|]; by intros (? & ? & _)).
  all: split; [intros _; split_and!; try done; by apply Cd|done].
Qed.

Lemma stack_order_witness :
  let cfg := {| WINDOW_MS := 60000; MAX_REQUESTS_PER_WINDOW := 1;
                HEAVY_MAX_REQUESTS_PER_WINDOW := 5; MAX_CONCURRENT_JOBS := 2 |} in
  let req := {| ip := Some "30.0.0.1"; remoteAddress := None; file := None; fields := ∅ |} in
  let srv := steps cfg [Global req 0] boot in
  heavyIpHits (chain (stack cfg) req 1 createRes srv).2 = ∅
  ∧ activeHeavyJobs (chain (stack cfg) req 1 createRes srv).2 = 0.
Proof.
  intros cfg req srv.
  destruct (stack_order cfg req 1 createRes srv) as (_ & H & _).
  destruct (H eq_refl) as (H1 & H2 & _). split; [exact H1|exact H2].
Defined.

(** X10: A response that was turned away, by a limiter or by the gate, is a
    sent 429 that carries no [release] callback: nothing it emits later
    can free a slot.  A response that got through the stack is not sent
    yet and carries the job's [release] on [finish] and on [close], and on
    no other event. *)
Theorem release_is_registered_on_admission (cfg : config) (req : request) (now : Z)
    (srv : server) :
  let result := chain (stack cfg) req now createRes srv in
  (result.1.1 = false →
     handlers result.1.2 = [] ∧ statusCode result.1.2 = 429 ∧ sent result.1.2 = true
     ∧ ∀ ev s, emit ev result.1.2 s = s)
  ∧ (result.1.1 = true →
       handlers result.1.2
       = [("finish", length (released srv)); ("close", length (released srv))]
       ∧ sent result.1.2 = false
       ∧ ∀ ev s, ev ≠ "finish" → ev ≠ "close" → emit ev result.1.2 s = s).
Proof.
  intros result. unfold result. rewrite stack_cases.
  destruct (global_reply cfg req now createRes srv) as (_ & Gr & Gc).
  pose proof (global_handlers cfg req now createRes srv) as Gh.
  set (g := globalRateLimit cfg req now createRes srv) in *.
  destruct (heavy_reply cfg req now g.1.2 g.2) as (_ & Hr & Hc).
  pose proof (heavy_handlers cfg req now g.1.2 g.2) as Hh.
  set (h := heavyRouteRateLimit cfg req now g.1.2 g.2) in *.
  assert (∀ r : res, handlers r = [] → ∀ ev s, emit ev r s = s) as Hemit.
  { intros r Hr0 ev s. unfold emit. by rewrite Hr0. }
  destruct Gc as [Gc|(Gd & Gs & Gsent)]; cycle 1.
  { rewrite Gd. simpl. split; [|done]. intros _. split_and!; try done.
    apply Hemit. by rewrite Gh. }
  rewrite Gc in *. simpl in *.
  destruct Hc as [Hc|(Hd & Hs & Hsent)]; cycle 1.
  { rewrite Hd. simpl. split; [|done]. intros _. split_and!; try done.
    apply Hemit. by rewrite Hh. }
  rewrite Hc. simpl.
  destruct (decide (activeHeavyJobs h.2 < MAX_CONCURRENT_JOBS cfg)).
  - rewrite gate_admits by done. simpl. split; [done|]. intros _.
    rewrite Hr, Gr. split_and!; try done.
    intros ev s H1 H2. unfold emit. cbn [handlers on app foldl fst snd createRes].
    apply String.eqb_neq in H1, H2. rewrite String.eqb_sym in H1.
    rewrite String.eqb_sym in H2. by rewrite H1, H2.
  - rewrite gate_denies by lia. simpl. split; [|done]. intros _. by split_and!.
Qed.

Lemma release_is_registered_on_admission_witness :
  let cfg := {| WINDOW_MS := 60000; MAX_REQUESTS_PER_WINDOW := 3;
                HEAVY_MAX_REQUESTS_PER_WINDOW := 2; MAX_CONCURRENT_JOBS := 1 |} in
  let req := {| ip := Some "30.0.0.1"; remoteAddress := None; file := None; fields := ∅ |} in
  let busy := (chain (stack cfg) req 0 createRes boot).2 in
  let turned_away := chain (stack cfg) req 1 createRes busy in
  activeHeavyJobs busy = 1
  ∧ emit "finish" turned_away.1.2 turned_away.2 = turned_away.2
  ∧ activeHeavyJobs (emit "close" turned_away.1.2 turned_away.2) = 1.
Proof.
  intros cfg req busy turned_away.
  destruct (release_is_registered_on_admission cfg req 1 busy) as [H _].
  destruct (H eq_refl) as (_ & _ & _ & Hemit).
  split; [reflexivity|]. split; [apply Hemit|]. fold turned_away in Hemit.
  rewrite Hemit. reflexivity.
Defined.

End GateMore.

(** ** More on cleanup and on what the handlers leave behind *)

Module FsMore.
Import Express Fs Classifier Routes Lifecycle FsFacts OutcomeFacts.

Lemma unlinked_subseteq p m : unlinked p m ⊆ m.
Proof.
  unfold unlinked. destruct p as [s|]; [|done].
  destruct (Js.truthy (Some s)); [apply delete_subseteq|done].
Qed.

Lemma swept_subseteq p m : swept p m ⊆ m.
Proof.
  unfold swept. destruct p as [s|]; [|done].
  destruct (_ && _); [apply map_filter_subseteq|done].
Qed.

Lemma unlinked_lookup p m q :
  unlinked p m !! q = if Js.truthy p && bool_decide (p = Some q) then None else m !! q.
Proof.
  unfold unlinked. destruct p as [s|]; [|done].
  destruct (Js.truthy (Some s)); [|done]. simpl. case_bool_decide as H.
  - injection H as ->. apply lookup_delete_eq.
  - apply lookup_delete_ne. congruence.
Qed.

Lemma if_present_unlink_effect p w :
  (∀ s st, p = Some s → files w !! s = Some st → isDirectory st = false) →
  if_present p unlinkSync w = (Normal tt, with_files (unlinked p) w).
Proof.
  intros Hfile. destruct w as [m c]. unfold if_present, unlinked, with_files. simpl in *.
  destruct p as [s|]; [|done]. destruct (Js.truthy (Some s)); [|done].
  unfold bind, existsSync, unlinkSync, ret. simpl.
  destruct (m !! s) as [st|] eqn:E.
  - rewrite bool_decide_eq_true_2 by eauto. simpl. rewrite E, (Hfile s st) by done. done.
  - rewrite bool_decide_eq_false_2 by (by intros [? ?]). by rewrite delete_id.
Qed.

Lemma if_present_rm_effect p w :
  if_present p rmSync_rf w = (Normal tt, with_files (swept p) w).
Proof.
  destruct w as [m c]. unfold if_present, swept, with_files. simpl.
  destruct p as [s|]; [|done]. destruct (Js.truthy (Some s)); [|done].
  unfold bind, existsSync, rmSync_rf, ret. simpl.
  by destruct (bool_decide (is_Some (m !! s))).
Qed.

(** What [cleanup] does when neither the input nor the output path names
    a directory. *)
Lemma cleanup_effect a b c w :
  (∀ s st, a = Some s → files w !! s = Some st → isDirectory st = false) →
  (∀ s st, b = Some s → files w !! s = Some st → isDirectory st = false) →
  cleanup a b c w
  = (Normal tt, with_files (λ m, swept c (unlinked b (unlinked a m))) w).
Proof.
  intros Ha Hb. unfold cleanup, try_catch, bind.
  rewrite (if_present_unlink_effect a w Ha).
  rewrite (if_present_unlink_effect b (with_files (unlinked a) w)).
  - by rewrite if_present_rm_effect.
  - intros s st -> H. simpl in H. apply (Hb s st eq_refl).
    by eapply lookup_weaken, unlinked_subseteq.
Qed.

(** X11: When neither the input nor the output path names a directory,
    [cleanup] logs no warning and only removes: afterwards nothing is
    left at any of its three paths, an extra directory that was there
    (and is not also the input or the output) is gone with everything
    below it, and every path that is none of the three and not below the
    extra directory is as before. *)
Theorem cleanup_removes (input output extraDir : option string) (w : world) :
  (∀ s st, input = Some s → files w !! s = Some st → isDirectory st = false) →
  (∀ s st, output = Some s → files w !! s = Some st → isDirectory st = false) →
  ∃ w', cleanup input output extraDir w = (Normal tt, w')
    ∧ console w' = console w
    ∧ files w' ⊆ files w
    ∧ gone input w' ∧ gone output w' ∧ gone extraDir w'
    ∧ (∀ s q, extraDir = Some s → s ≠ "" → input ≠ Some s → output ≠ Some s →
              is_Some (files w !! s) → under s q = true → files w' !! q = None)
    ∧ (∀ q, input ≠ Some q → output ≠ Some q →
            (∀ s, extraDir = Some s → under s q = false) →
            files w' !! q = files w !! q).
Proof.
  intros Ha Hb. eexists. split; [by apply cleanup_effect|]. simpl.
  set (m := files w). set (m2 := unlinked output (unlinked input m)).
  assert (m2 ⊆ m) as Hm2.
  { unfold m2. etrans; apply unlinked_subseteq. }
  assert (∀ q, m2 !! q = if Js.truthy input && bool_decide (input = Some q) then None
                         else if Js.truthy output && bool_decide (output = Some q) then None
                         else m !! q) as Hm2q.
  { intros q. unfold m2. rewrite !unlinked_lookup.
    by destruct (Js.truthy output && bool_decide (output = Some q)),
                (Js.truthy input && bool_decide (input = Some q)). }
  split_and!; try done.
  - etrans; [apply swept_subseteq|done].
  - unfold gone. destruct input as [s|]; [|done].
    destruct (Js.truthy (Some s)) eqn:Ht; [right|by left].
    eapply lookup_weaken_None; [|apply swept_subseteq].
    rewrite Hm2q, ?Ht. by rewrite bool_decide_eq_true_2.
  - unfold gone. destruct output as [s|]; [|done].
    destruct (Js.truthy (Some s)) eqn:Ht; [right|by left].
    eapply lookup_weaken_None; [|apply swept_subseteq].
    rewrite Hm2q, ?Ht. rewrite (bool_decide_eq_true_2 (Some s = Some s)) by done.
    by destruct (_ && _).
  - unfold gone, swept. destruct extraDir as [s|]; [|done].
    destruct (Js.truthy (Some s)) eqn:Ht; [right|by left]. simpl.
    case_bool_decide as Hs.
    + apply map_lookup_filter_None. right. intros st _. simpl. by rewrite under_refl.
    + destruct (m2 !! s) eqn:E; [|done]. exfalso. apply Hs. eauto.
  - intros s q -> Hs Hi Ho Hthere Hq. unfold swept.
    rewrite truthy_nonempty by done. simpl.
    rewrite bool_decide_eq_true_2.
    + apply map_lookup_filter_None. right. intros st _. simpl. by rewrite Hq.
    + rewrite Hm2q. rewrite (bool_decide_eq_false_2 (input = Some s)) by done.
      rewrite (bool_decide_eq_false_2 (output = Some s)) by done.
      by rewrite !andb_false_r.
  - intros q Hi Ho Hc.
    assert (m2 !! q = m !! q) as <-.
    { rewrite Hm2q. rewrite (bool_decide_eq_false_2 (input = Some q)) by done.
      rewrite (bool_decide_eq_false_2 (output = Some q)) by done.
      by rewrite !andb_false_r. }
    unfold swept. destruct extraDir as [s|]; [|done].
    destruct (_ && _); [|done]. rewrite map_lookup_filter.
    destruct (m2 !! q); simpl; [|done]. rewrite option_guard_True; [done|].
    simpl. by apply Hc.
Qed.

(** The zip stage of an extraction cleaned up: the staged input, the
    archive and the whole output directory go, the rest stays. *)
Lemma cleanup_removes_witness :
  let w := {| files := <["uploads/ab12" := Stats false 2048]>
                         (<["uploads/extract_17" := Stats true 0]>
                            (<["uploads/extract_17/output-000.png" := Stats false 100]>
                               (<["uploads/extract_17.zip" := Stats false 90]>
                                  (<["uploads/cd34" := Stats false 10]>
                                     (<["uploads" := Stats true 0]> ∅)))));
              console := [] |} in
  ∃ w', cleanup (Some "uploads/ab12") (Some "uploads/extract_17.zip")
          (Some "uploads/extract_17") w = (Normal tt, w')
        ∧ files w' !! "uploads/extract_17/output-000.png" = None
        ∧ files w' !! "uploads/cd34" = Some (Stats false 10).
Proof.
  intros w.
  destruct (cleanup_removes (Some "uploads/ab12") (Some "uploads/extract_17.zip")
              (Some "uploads/extract_17") w) as (w' & E & _ & _ & _ & _ & _ & Hsub & Hframe).
  - intros s st [= <-] H. vm_compute in H. by injection H as <-.
  - intros s st [= <-] H. vm_compute in H. by injection H as <-.
  - exists w'. split; [exact E|]. split.
    + by apply (Hsub "uploads/extract_17").
    + rewrite Hframe; [reflexivity|done|done|]. by intros s [= <-].
Defined.

End FsMore.

(** ** More on the heavy routes *)

Module RouteMore.
Import Express Fs Classifier Routes Lifecycle FsFacts OutcomeFacts FsMore.


(** X12: The callbacks of convert, compress and unlock never throw and always
    send a response, with the callbacks registered on it left in place:
    either a 401 or a 500, or the download of the output file, before
    which nothing has been deleted. *)
Theorem direct_callbacks_answer (toFixed2 : Number.number → string)
    (rt : route) (j : job) (x : execResult) (r : res) (w : world) :
  rt ≠ Extract →
  ∃ r' w', callback toFixed2 rt j x r w = (Normal (r', None), w')
    ∧ sent r' = true ∧ handlers r' = handlers r
    ∧ ((download r' = download r ∧ (statusCode r' = 401 ∨ statusCode r' = 500))
       ∨ (∃ name, download r' = Some (outputPath j, name)
                  ∧ statusCode r' = statusCode r ∧ w' = w)).
Proof.
  intros Hrt.
  assert (∀ a b c code msg,
            ∃ r' w', bind (cleanup a b c)
                       (λ _, ret (send msg (status code r), @None string)) w
                     = (Normal (r', None), w')
                     ∧ sent r' = true ∧ handlers r' = handlers r
                     ∧ download r' = download r ∧ statusCode r' = code) as Hfail.
  { intros a b c code msg. unfold bind, ret.
    destruct (cleanup_normal a b c w) as [w1 ->].
    eexists _, _. split; [reflexivity|]. by split_and!. }
  destruct rt; try done; simpl.
  - destruct (checkPasswordError _ _).
    { destruct (Hfail (Some (inputPath j)) (Some (outputPath j)) None 401 "PASSWORD_REQUIRED")
        as (r' & w' & -> & ? & ? & ? & ?). exists r', w'. split_and!; try done. left. auto. }
    case_bool_decide.
    { destruct (Hfail (Some (inputPath j)) (Some (outputPath j)) None 500
                  "Error converting file.") as (r' & w' & -> & ? & ? & ? & ?).
      exists r', w'. split_and!; try done. left. auto. }
    eexists _, _. split; [reflexivity|]. split_and!; try done. right. by eexists.
  - destruct (checkPasswordError _ _).
    { destruct (Hfail (Some (inputPath j)) (Some (outputPath j)) None 401 "PASSWORD_REQUIRED")
        as (r' & w' & -> & ? & ? & ? & ?). exists r', w'. split_and!; try done. left. auto. }
    case_bool_decide.
    { destruct (Hfail (Some (inputPath j)) (Some (outputPath j)) None 500
                  "Compression failed.") as (r' & w' & -> & ? & ? & ? & ?).
      exists r', w'. split_and!; try done. left. auto. }
    unfold bind. destruct (getFileSizeMB_normal (outputPath j) w) as [v ->].
    eexists _, _. split; [reflexivity|]. split_and!; try done. right. by eexists.
  - destruct (_ || _).
    { destruct (Hfail (Some (inputPath j)) (Some (outputPath j)) None 401
                  "Incorrect Password or File Error") as (r' & w' & -> & ? & ? & ? & ?).
      exists r', w'. split_and!; try done. left. auto. }
    eexists _, _. split; [reflexivity|]. split_and!; try done. right. by eexists.
Qed.

Lemma direct_callbacks_answer_witness :
  let j := {| inputPath := "uploads/ab12"; outputPath := "uploads/unlocked_ab12.pdf";
              outputDir := ""; mode := None; format := "";
              originalSize := Number.of_Z 0; gsSettings := "" |} in
  let x := {| error := None; stdout := ""; stderr := "" |} in
  let w := {| files := <["uploads/ab12" := Stats false 2048]> ∅; console := [] |} in
  ∃ r', callback (λ _, "") Unlock j x (on "finish" 0 createRes) w = (Normal (r', None), w)
        ∧ handlers r' = [("finish", 0%nat)].
Proof.
  intros j x w.
  destruct (direct_callbacks_answer (λ _, "") Unlock j x (on "finish" 0 createRes) w)
    as (r' & w' & E & _ & Hh & _); [discriminate|].
  exists r'. split; [|exact Hh]. rewrite E. f_equal.
  assert (callback (λ _, "") Unlock j x (on "finish" 0 createRes) w
          = (Normal (download_ "uploads/unlocked_ab12.pdf" "unlocked.pdf"
                       (on "finish" 0 createRes), None), w)) as E' by reflexivity.
  rewrite E' in E. by injection E.
Defined.



(** X14: [/unlock] without a password (none sent, or an empty one) is answered
    400 [Password is required.]; no subprocess is started and the staged
    upload is deleted, everything else being left as it is.  With a
    password the handler touches nothing and starts the subprocess for
    [uploads/unlocked_<name>.pdf]. *)
Theorem unlock_requires_password (parseFloat : option string → Number.number)
    (req : request) (f : upload) (now : Z) (r : res) (w : world) :
  file req = Some f →
  path f ≠ "" →
  (∀ st, files w !! path f = Some st → isDirectory st = false) →
  (Js.truthy (fields req !! "password") = false →
     handler parseFloat Unlock req now r w
     = (Normal (send "Password is required." (status 400 r), None),
        with_files (delete (path f)) w))
  ∧ (Js.truthy (fields req !! "password") = true →
       ∃ j, handler parseFloat Unlock req now r w = (Normal (r, Some j), w)
            ∧ inputPath j = path f
            ∧ outputPath j = "uploads/unlocked_" +:+ filename f +:+ ".pdf").
Proof.
  intros Hf Hp Hfile. unfold handler. rewrite Hf. split; intros ->.
  - unfold bind. rewrite cleanup_effect.
    + unfold ret, with_files, swept, unlinked. by rewrite truthy_nonempty.
    + intros s st [= <-]. apply Hfile.
    + done.
  - by eexists.
Qed.

Lemma unlock_requires_password_witness :
  let req := {| ip := Some "1.1.1.1"; remoteAddress := None;
                file := Some (Upload "/tmp/not-present.pdf" "fake"); fields := ∅ |} in
  let w := {| files := ∅; console := [] |} in
  answer (handler (λ _, S754_nan) Unlock req 0 createRes w)
  = Some (400, "Password is required.").
Proof.
  intros req w.
  destruct (unlock_requires_password (λ _, S754_nan) req
              (Upload "/tmp/not-present.pdf" "fake") 0 createRes w) as [H _];
    [reflexivity|discriminate|intros st H; discriminate H|].
  rewrite H; reflexivity.
Defined.

Lemma substring_all n : String.substring 0 (String.length n) n = n.
Proof. induction n as [|c n IH]; [done|]. simpl. by rewrite IH. Qed.

Lemma substring_after d n :
  String.substring (String.length d) (String.length (d +:+ n) - String.length d) (d +:+ n)
  = n.
Proof.
  induction d as [|c d IH].
  - rewrite StringFacts.app_nil. simpl. rewrite Nat.sub_0_r. apply substring_all.
  - rewrite StringFacts.app_cons. simpl. apply IH.
Qed.

Lemma app_assoc_string a b c : a +:+ b +:+ c = (a +:+ b) +:+ c.
Proof.
  induction a as [|x a IH]; [done|].
  rewrite (StringFacts.app_cons x a (b +:+ c)), (StringFacts.app_cons x a b),
    (StringFacts.app_cons x (a +:+ b) c). by rewrite IH.
Qed.

(** A path directly below [dir] is listed by [readdirSync] under its
    name. *)
Lemma entry_name_child dir name :
  name ≠ "" → Js.includes name "/" = false →
  entry_name dir (dir +:+ "/" +:+ name) = Some name.
Proof.
  intros Hn Hs. rewrite app_assoc_string. unfold entry_name.
  rewrite (proj2 (StringFacts.prefix_spec (dir +:+ "/") ((dir +:+ "/") +:+ name)))
    by (by exists name).
  rewrite substring_after, Hs. apply String.eqb_neq in Hn. by rewrite Hn.
Qed.

(** X15: The callback of [/extract] when the subprocess reported no error and
    no marker was found: if the output directory is gone, or is not a
    directory, the callback throws out of [readdirSync], with no response
    sent and nothing cleaned up; if the directory holds at least one
    entry, the archive [<outputDir>.zip] is started, nothing is sent yet
    and nothing has been deleted. *)
Theorem extract_callback_cases (toFixed2 : Number.number → string)
    (j : job) (x : execResult) (r : res) (w : world) :
  checkPasswordError (stderr x) (stdout x) = false →
  error x = None →
  (files w !! outputDir j = None →
     callback toFixed2 Extract j x r w = (Throw "ENOENT", w))
  ∧ (∀ st, files w !! outputDir j = Some st → isDirectory st = false →
       callback toFixed2 Extract j x r w = (Throw "ENOTDIR", w))
  ∧ (∀ st name st',
       files w !! outputDir j = Some st → isDirectory st = true →
       name ≠ "" → Js.includes name "/" = false →
       files w !! (outputDir j +:+ "/" +:+ name) = Some st' →
       callback toFixed2 Extract j x r w
       = (Normal (r, Some (outputDir j +:+ ".zip")), w)).
Proof.
  intros Hm He.
  assert (callback toFixed2 Extract j x r w
          = match readdirSync (outputDir j) w with
            | (Normal l, w1) =>
                (if bool_decide (length l = 0%nat)
                 then bind (cleanup (Some (inputPath j)) None (Some (outputDir j)))
                        (λ _, ret (send (empty_message j) (status 422 r), None))
                 else ret (r, Some (outputDir j +:+ ".zip"))) w1
            | (Throw e, w1) => (Throw e, w1)
            end) as ->.
  { simpl. rewrite Hm, He. by rewrite bool_decide_eq_false_2 by (by intros [? ?]). }
  unfold readdirSync. split_and!.
  - by intros ->.
  - intros st -> ->. done.
  - intros st name st' -> -> Hn Hs Hchild.
    rewrite bool_decide_eq_false_2; [done|].
    intros Hlen. apply length_zero_iff_nil in Hlen.
    assert (name ∈ omap (λ kv : string * stats, entry_name (outputDir j) kv.1)
                     (map_to_list (files w))) as Hin.
    { apply list_elem_of_omap. exists (outputDir j +:+ "/" +:+ name, st'). split.
      - by apply elem_of_map_to_list.
      - simpl. by apply entry_name_child. }
    rewrite Hlen in Hin. by apply elem_of_nil in Hin.
Qed.

Lemma extract_callback_cases_witness :
  let j := {| inputPath := "uploads/ab12"; outputPath := "";
              outputDir := "uploads/extract_17"; mode := Some "pages";
              format := "png"; originalSize := Number.of_Z 0; gsSettings := "" |} in
  let x := {| error := None; stdout := ""; stderr := "" |} in
  let gone_ := {| files := <["uploads/ab12" := Stats false 2048]> ∅; console := [] |} in
  let full := {| files := <["uploads/extract_17/output-001.png" := Stats false 9]>
                            (<["uploads/extract_17" := Stats true 0]> ∅);
                 console := [] |} in
  callback (λ _, "") Extract j x createRes gone_ = (Throw "ENOENT", gone_)
  ∧ callback (λ _, "") Extract j x createRes full
    = (Normal (createRes, Some "uploads/extract_17.zip"), full).
Proof.
  intros j x gone_ full. split.
  - destruct (extract_callback_cases (λ _, "") j x createRes gone_ eq_refl eq_refl)
      as (H & _). apply H. reflexivity.
  - destruct (extract_callback_cases (λ _, "") j x createRes full eq_refl eq_refl)
      as (_ & _ & H).
    apply (H (Stats true 0) "output-001.png" (Stats false 9)); try reflexivity.
    discriminate.
Defined.

Lemma cleanup_triple i z d w :
  i ≠ "" → z ≠ "" → d ≠ "" →
  (∀ st, files w !! i = Some st → isDirectory st = false) →
  (∀ st, files w !! z = Some st → isDirectory st = false) →
  (∃ st, files w !! d = Some st ∧ isDirectory st = true) →
  cleanup (Some i) (Some z) (Some d) w
  = (Normal tt,
     with_files (λ m, filter (λ kv, under d kv.1 = false) (delete z (delete i m))) w).
Proof.
  intros Hi Hz Hd Hfi Hfz (st & Hst & Hdir). rewrite cleanup_effect.
  - unfold with_files, swept, unlinked. rewrite !truthy_nonempty by done. simpl.
    rewrite bool_decide_eq_true_2; [done|]. exists st.
    rewrite !lookup_delete_ne; [done|..]; intros ->.
    + specialize (Hfi _ Hst). congruence.
    + specialize (Hfz _ Hst). congruence.
  - intros s st0 [= <-]. apply Hfi.
  - intros s st0 [= <-]. apply Hfz.
Qed.

(** X16: However the archive of an extraction ends, with an archiver error
    (answered 500 [Zip creation failed.]) or with the archive sent and
    downloaded, the staged input, the archive and the output directory
    with everything below it are gone afterwards and nothing else has
    changed.  The staged input and the archive are files or missing, the
    output directory is a directory. *)
Theorem archive_clean_up (failed : bool) (j : job) (zipPath : string) (r : res)
    (w : world) :
  inputPath j ≠ "" → zipPath ≠ "" → outputDir j ≠ "" →
  (∀ st, files w !! inputPath j = Some st → isDirectory st = false) →
  (∀ st, files w !! zipPath = Some st → isDirectory st = false) →
  (∃ st, files w !! outputDir j = Some st ∧ isDirectory st = true) →
  ∃ r' w', archive_done failed j zipPath r w = (Normal r', w')
    ∧ sent r' = true
    ∧ (failed = true → statusCode r' = 500 ∧ body r' = "Zip creation failed.")
    ∧ (failed = false → ∃ name, download r' = Some (zipPath, name))
    ∧ files w' !! inputPath j = None
    ∧ files w' !! zipPath = None
    ∧ (∀ q, under (outputDir j) q = true → files w' !! q = None)
    ∧ (∀ q, q ≠ inputPath j → q ≠ zipPath → under (outputDir j) q = false →
            files w' !! q = files w !! q)
    ∧ console w' = console w.
Proof.
  intros Hi Hz Hd Hfi Hfz Hdir.
  pose proof (cleanup_triple _ _ _ w Hi Hz Hd Hfi Hfz Hdir) as Hclean.
  assert (∃ r', archive_done failed j zipPath r w
                = (Normal r',
                   with_files (λ m, filter (λ kv, under (outputDir j) kv.1 = false)
                                       (delete zipPath (delete (inputPath j) m))) w)
                ∧ sent r' = true
                ∧ (failed = true → statusCode r' = 500 ∧ body r' = "Zip creation failed.")
                ∧ (failed = false → ∃ name, download r' = Some (zipPath, name)))
    as (r' & -> & Hs & H500 & Hdl).
  { unfold archive_done, archive_error, downloaded, bind. destruct failed; rewrite Hclean.
    - eexists. split; [reflexivity|]. by split_and!.
    - eexists. split; [reflexivity|]. split_and!; try done. intros _. by eexists. }
  exists r'. eexists. split; [reflexivity|]. simpl. split_and!; try done.
  - apply map_lookup_filter_None. left.
    destruct (decide (inputPath j = zipPath)) as [->|];
      [apply lookup_delete_eq|by rewrite lookup_delete_ne, lookup_delete_eq].
  - apply map_lookup_filter_None. left. apply lookup_delete_eq.
  - intros q Hq. apply map_lookup_filter_None. right. intros st _. simpl. by rewrite Hq.
  - intros q H1 H2 H3. rewrite map_lookup_filter, !lookup_delete_ne by done.
    destruct (files w !! q); simpl; [|done]. by rewrite option_guard_True.
Qed.

Lemma archive_clean_up_witness :
  let j := {| inputPath := "uploads/ab12"; outputPath := "";
              outputDir := "uploads/extract_17"; mode := Some "pages";
              format := "png"; originalSize := Number.of_Z 0; gsSettings := "" |} in
  let w := {| files := <["uploads/ab12" := Stats false 2048]>
                         (<["uploads/extract_17" := Stats true 0]>
                            (<["uploads/extract_17/output-001.png" := Stats false 100]>
                               (<["uploads/extract_17.zip" := Stats false 90]> ∅)));
              console := [] |} in
  ∃ r' w', archive_done false j "uploads/extract_17.zip" createRes w = (Normal r', w')
           ∧ download r' = Some ("uploads/extract_17.zip", "pages_png.zip")
           ∧ files w' !! "uploads/extract_17/output-001.png" = None.
Proof.
  intros j w.
  destruct (archive_clean_up false j "uploads/extract_17.zip" createRes w)
    as (r' & w' & E & _ & _ & _ & _ & _ & Hsub & _); try done.
  - intros st H. vm_compute in H. by injection H as <-.
  - intros st H. vm_compute in H. by injection H as <-.
  - by exists (Stats true 0).
  - exists r', w'. split; [exact E|]. split; [|by apply Hsub].
    assert (∃ w0, archive_done false j "uploads/extract_17.zip" createRes w
                  = (Normal (archive_closed j "uploads/extract_17.zip" createRes), w0))
      as [w0 E0] by (eexists; vm_compute; reflexivity).
    rewrite E0 in E. by injection E as <- _.
Defined.



End RouteMore.

(** ** The compression strategy, the markers and the tools *)

Module ChoiceFacts.
Import Express Fs Classifier Routes Commands.

(** X18: The strategy always names one of Ghostscript's four presets.  A mode
    other than [target] and [percentage] gives [/ebook] whatever the
    value; [target] never gives [/prepress]; and a value that is not a
    number gives the strongest compression, [/screen], in [percentage]
    mode but the weakest of its mode, [/printer], in [target] mode. *)
Theorem strategy_profiles (mode : option string) (value originalSize : Number.number) :
  strategy mode value originalSize ∈ ["/screen"; "/ebook"; "/printer"; "/prepress"]
  ∧ (mode ≠ Some "target" → mode ≠ Some "percentage" →
       strategy mode value originalSize = "/ebook")
  ∧ (mode = Some "target" → strategy mode value originalSize ≠ "/prepress")
  ∧ (Number.isNaN value = true →
       (mode = Some "percentage" → strategy mode value originalSize = "/screen")
       ∧ (mode = Some "target" → strategy mode value originalSize = "/printer")).
Proof.
  unfold strategy. split_and!.
  - repeat case_bool_decide;
      repeat (match goal with |- context [if ?b then _ else _] => destruct b end);
      set_unfold; tauto.
  - intros H1 H2. by rewrite !bool_decide_eq_false_2.
  - intros ->. rewrite bool_decide_eq_true_2 by done.
    by repeat (match goal with |- context [if ?b then _ else _] => destruct b end).
  - intros Hnan. destruct value; try discriminate Hnan. split; intros ->.
    + rewrite bool_decide_eq_false_2 by done. by rewrite bool_decide_eq_true_2.
    + by rewrite bool_decide_eq_true_2.
Qed.

Lemma strategy_profiles_witness :
  strategy (Some "percentage") S754_nan (Number.of_Z 3) = "/screen"
  ∧ strategy (Some "target") S754_nan (Number.of_Z 3) = "/printer".
Proof.
  destruct (strategy_profiles (Some "percentage") S754_nan (Number.of_Z 3))
    as (_ & _ & _ & H1).
  destruct (strategy_profiles (Some "target") S754_nan (Number.of_Z 3))
    as (_ & _ & _ & H2).
  split; [by apply H1|by apply H2].
Defined.

Lemma lower_lower c : Js.lower (Js.lower c) = Js.lower c.
Proof. by destruct c as [[] [] [] [] [] [] [] []]. Qed.

Lemma toLowerCase_idemp s : Js.toLowerCase (Js.toLowerCase s) = Js.toLowerCase s.
Proof. induction s as [|c s IH]; [done|]. simpl. by rewrite lower_lower, IH. Qed.

Lemma includes_app_l a b m : Js.includes a m = true → Js.includes (a +:+ b) m = true.
Proof.
  rewrite !StringFacts.includes_spec. intros (x & y & ->). exists x, (y +:+ b).
  by rewrite <- !RouteMore.app_assoc_string.
Qed.

Lemma includes_app_r a b m : Js.includes b m = true → Js.includes (a +:+ b) m = true.
Proof.
  rewrite !StringFacts.includes_spec. intros (x & y & ->). exists (a +:+ x), y.
  by rewrite <- !RouteMore.app_assoc_string.
Qed.

(** X19: Of the three markers [checkPasswordError] searches for, the third can
    never decide: a text that contains it contains [password].  The test
    does not depend on the case of the output, holds as soon as one of
    the two streams alone passes it, and holds whenever the test of
    [/unlock] ([stderr] contains [password]) does. *)
Theorem marker_test (stderr stdout : string) :
  let out := Js.toLowerCase (stderr +:+ stdout) in
  checkPasswordError stderr stdout
  = Js.includes out "password" || Js.includes out "encrypted"
  ∧ checkPasswordError (Js.toLowerCase stderr) (Js.toLowerCase stdout)
    = checkPasswordError stderr stdout
  ∧ (checkPasswordError stderr "" = true ∨ checkPasswordError "" stdout = true →
       checkPasswordError stderr stdout = true)
  ∧ (Js.includes (Js.toLowerCase stderr) "password" = true →
       checkPasswordError stderr stdout = true).
Proof.
  intros out. unfold checkPasswordError. fold out. split_and!.
  - destruct (Js.includes out "this file requires a password") eqn:E;
      [|by rewrite orb_false_r].
    apply StringFacts.includes_spec in E as (a & b & E).
    assert (Js.includes out "password" = true) as ->; [|done].
    apply StringFacts.includes_spec. exists (a +:+ "this file requires a "), b.
    rewrite E. rewrite <- !RouteMore.app_assoc_string. done.
  - by rewrite <- StringFacts.toLowerCase_app, toLowerCase_idemp.
  - assert (∀ m, Js.includes (Js.toLowerCase (stderr +:+ "")) m = true
                 ∨ Js.includes (Js.toLowerCase ("" +:+ stdout)) m = true →
                 Js.includes out m = true) as Hm.
    { intros m. unfold out. rewrite !StringFacts.toLowerCase_app.
      intros [H|H]; [apply includes_app_l|apply includes_app_r].
      - rewrite <- H. f_equal. simpl. clear.
        induction (Js.toLowerCase stderr) as [|c s IH]; [done|].
        by rewrite StringFacts.app_cons, <- IH.
      - exact H. }
    rewrite !orb_true_iff. intros [[[H|H]|H]|[[H|H]|H]];
      ((left; left; apply Hm; (by left) || (by right))
       || (left; right; apply Hm; (by left) || (by right))
       || (right; apply Hm; (by left) || (by right))).
  - intros H. unfold out. rewrite StringFacts.toLowerCase_app.
    by rewrite (includes_app_l _ _ _ H).
Qed.

(** A marker cut in two by the end of [stderr] is still found. *)
Lemma marker_test_witness :
  checkPasswordError "gs: PassWord" " required" = true
  ∧ checkPasswordError "error: pass" "word" = true.
Proof.
  split.
  - destruct (marker_test "gs: PassWord" " required") as (_ & _ & _ & H).
    apply H. reflexivity.
  - destruct (marker_test "error: pass" "word") as (E & _). rewrite E. reflexivity.
Defined.

(** X20: Which tool an extraction runs is decided by [mode] being [pages] or
    not, which 422 message it gives by [mode] being [images] or not: a
    mode that is neither runs [pdfimages] and yet reports
    [Could not render pages.] when nothing comes out.  The device of a
    page rendering is PNG for every format other than [jpg] and [tiff]. *)
Theorem extract_tool_and_message (req : request) (j : job) :
  (String.prefix "gs " (extract_command req j) = true ↔ mode j = Some "pages")
  ∧ (String.prefix "pdfimages " (extract_command req j) = true ↔ mode j ≠ Some "pages")
  ∧ (empty_message j = "Could not render pages." ↔ mode j ≠ Some "images")
  ∧ (mode j ≠ Some "pages" → mode j ≠ Some "images" →
       String.prefix "pdfimages " (extract_command req j) = true
       ∧ empty_message j = "Could not render pages.")
  ∧ (device (format j) = "jpeg" ↔ format j = "jpg")
  ∧ (device (format j) = "tiff24nc" ↔ format j = "tiff")
  ∧ (format j ≠ "jpg" → format j ≠ "tiff" →
       device (format j) = "png16m" ∧ formatFlag (format j) = "-png").
Proof.
  assert (String.prefix "gs " (extract_command req j) = true ↔ mode j = Some "pages") as Hgs.
  { unfold extract_command. case_bool_decide; split; try done;
      try (intros _; apply StringFacts.prefix_spec; eexists; reflexivity);
      try (intros H'; discriminate H'). }
  assert (String.prefix "pdfimages " (extract_command req j) = true
          ↔ mode j ≠ Some "pages") as Hpi.
  { unfold extract_command. case_bool_decide; split; try done;
      try (intros _; apply StringFacts.prefix_spec; eexists; reflexivity);
      try (intros H'; discriminate H'). }
  assert (empty_message j = "Could not render pages." ↔ mode j ≠ Some "images") as Hmsg.
  { unfold empty_message. case_bool_decide; split; try done;
      try (intros H'; discriminate H'). }
  assert (∀ f, (device f = "jpeg" ↔ f = "jpg") ∧ (device f = "tiff24nc" ↔ f = "tiff")
               ∧ (f ≠ "jpg" → f ≠ "tiff" → device f = "png16m" ∧ formatFlag f = "-png"))
    as Hdev.
  { intros f. unfold device, formatFlag.
    destruct (String.eqb_spec f "tiff") as [->|Ht]; [by split_and!|].
    destruct (String.eqb_spec f "jpg") as [->|Hj]; by split_and!. }
  destruct (Hdev (format j)) as (Hd1 & Hd2 & Hd3).
  split_and!; try done. intros Hp Hi. split; [by apply Hpi|by apply Hmsg].
Qed.

Lemma extract_tool_and_message_witness :
  let req := {| ip := None; remoteAddress := None; file := None; fields := ∅ |} in
  let j := {| inputPath := "uploads/ab12"; outputPath := "";
              outputDir := "uploads/extract_17"; mode := Some "text";
              format := "gif"; originalSize := Number.of_Z 0; gsSettings := "" |} in
  String.prefix "pdfimages -png " (extract_command req j) = true
  ∧ empty_message j = "Could not render pages.".
Proof.
  intros req j.
  destruct (extract_tool_and_message req j) as (_ & _ & _ & H & _).
  destruct (H ltac:(discriminate) ltac:(discriminate)) as [_ Hmsg].
  split; [reflexivity|exact Hmsg].
Defined.

End ChoiceFacts.

(** ** The cleanup of the merge route *)

Module MergeFacts.
Import Express Fs Merge.





End MergeFacts.
